(** * The packing-list inventory model: Container, Item and Box

    A shallow embedding of the three classes of the inventory model
    (Container, Item, Box), of the two validators of [lib/utils.js] and of
    the verification of [lib/auth.js], followed by the properties of the
    model's specification and further properties of the code.

    JavaScript objects have identity and are mutated in place, so the
    instances of the three classes live in a store ([heap]) and are named
    by their location.  A method is a function from the store to an
    outcome (a returned value or a thrown error) and the store it leaves
    behind: what a call did before it threw stays done. *)

From Stdlib Require Import ZArith Ascii String.
From stdpp Require Import base tactics option list strings pretty.

Local Open Scope string_scope.
Local Open Scope list_scope.
Local Open Scope Z_scope.

(** ** JavaScript values *)

(** Locations of class instances in the store. *)
Abbreviation loc := nat.

(** A number is either integral, and then it is given by its value
    (both zeros are [Integer 0]), or one of the values on which
    [Number.isInteger] answers false: a finite fraction, NaN, or an
    infinity. *)
Inductive number :=
| Integer (z : Z)
| Fraction
| NaN
| Infinity (negative : bool).

(** The values the program receives from its callers and hands back.
    Array and object literals are plain data here: the program reads them
    and builds fresh ones, and never updates one.  An object literal is the
    list of its properties with their names, distinct. *)
#[warnings="-register-all"]
Inductive value :=
| VUndefined
| VNull
| VBool (b : bool)
| VNum (n : number)
| VStr (s : string)
| VArr (l : list value)
| VObj (fields : list (string * value))
| VItem (l : loc)
| VBox (l : loc)
| VContainer (l : loc).

(** ToBoolean: the test of [e && ...] and of [if (e)]. *)
Definition truthy (e : value) : bool :=
  match e with
  | VUndefined | VNull => false
  | VBool b => b
  | VNum (Integer z) => negb (z =? 0)
  | VNum NaN => false
  | VNum _ => true
  | VStr s => negb (String.eqb s "")
  | _ => true
  end.

(** ** Strings

    A character is a code unit below 256 (Latin-1).  On these,
    [String.prototype.trim] strips the six ASCII white-space characters
    and the no-break space, and [toLowerCase] moves A-Z and the accented
    capitals (all of 192..222 but the multiplication sign) down by 32. *)

Definition is_white_space (c : ascii) : bool :=
  let n := nat_of_ascii c in
  ((9 <=? n) && (n <=? 13) || (n =? 32) || (n =? 160))%nat.

Fixpoint trimStart (s : string) : string :=
  match s with
  | EmptyString => EmptyString
  | String c r => if is_white_space c then trimStart r else s
  end.

Definition trimEnd (s : string) : string :=
  String.rev (trimStart (String.rev s)).

Definition trim (s : string) : string := trimEnd (trimStart s).

Definition lower_char (c : ascii) : ascii :=
  let n := nat_of_ascii c in
  if ((65 <=? n) && (n <=? 90)
      || (192 <=? n) && (n <=? 222) && negb (n =? 215))%nat
  then ascii_of_nat (n + 32) else c.

Fixpoint toLowerCase (s : string) : string :=
  match s with
  | EmptyString => EmptyString
  | String c r => String (lower_char c) (toLowerCase r)
  end.

(** ** lib/utils.js *)

(** [e && typeof e === 'string' && e.trim().length > 0], as the test of
    an [if]. *)
Definition isNonEmptyString (e : value) : bool :=
  truthy e &&
  match e with
  | VStr s => (0 <? String.length (trim s))%nat
  | _ => false
  end.

(** [e && Number.isInteger(e) && e > 0], as the test of an [if]. *)
Definition isPositiveInt (e : value) : bool :=
  truthy e &&
  match e with
  | VNum (Integer z) => 0 <? z
  | _ => false
  end.

(** ** Reading properties of caller-supplied data *)

Fixpoint assoc (k : string) (fields : list (string * value)) : value :=
  match fields with
  | [] => VUndefined
  | (k', v) :: r => if String.eqb k k' then v else assoc k r
  end.

(** The property name of an array index. *)
Definition index_name (i : nat) : string := pretty i.

(** The errors the program throws.  Every [throw] of the model is
    [new Error(`invalid argument for <place> '${e}'`)], kept as the place
    and the offending value, but for the one of [removeBox] with its fixed
    message; [TypeError] is the engine's own, on reading a property of
    [undefined] or [null]. *)
Inductive error :=
| InvalidArgument (place : string) (e : value)
| MustHaveOneBox
| TypeError.

Inductive result (A : Type) :=
| Ok (a : A)
| Throw (err : error).
Arguments Ok {A} a.
Arguments Throw {A} err.

(** [el[i]] for the indices the program reads, [0] and [1]. *)
Definition get_index (el : value) (i : nat) : result value :=
  match el with
  | VUndefined | VNull => Throw TypeError
  | VArr l => Ok (default VUndefined (l !! i))
  | VObj fields => Ok (assoc (index_name i) fields)
  | VStr s =>
      Ok (match String.get i s with
          | Some c => VStr (String c EmptyString)
          | None => VUndefined
          end)
  | _ => Ok VUndefined
  end.

(** [e.name] for the names the program reads from a raw descriptor:
    [collection], [item_name], [item_id] and [boxes].  None of them is a
    readable property of an array, a string, a number or an instance of the
    three classes (the Item accessors of these names are setters only). *)
Definition get_field (e : value) (name : string) : result value :=
  match e with
  | VUndefined | VNull => Throw TypeError
  | VObj fields => Ok (assoc name fields)
  | _ => Ok VUndefined
  end.

(** The two kinds of error of the specification, over the one [Error]
    class of the source. *)
Definition is_ValidationError (err : error) : bool :=
  match err with InvalidArgument _ _ => true | _ => false end.

Definition is_InvariantViolation (err : error) : bool :=
  match err with MustHaveOneBox => true | _ => false end.

(** [e instanceof C]: an instance carries its class. *)
Definition instanceof_Item (e : value) : bool :=
  match e with VItem _ => true | _ => false end.

Definition instanceof_Box (e : value) : bool :=
  match e with VBox _ => true | _ => false end.

(** [e.trim()] and [e.toLowerCase()]: methods of strings only. *)
Definition method_trim (e : value) : result value :=
  match e with VStr s => Ok (VStr (trim s)) | _ => Throw TypeError end.

Definition method_toLowerCase (e : value) : result value :=
  match e with VStr s => Ok (VStr (toLowerCase s)) | _ => Throw TypeError end.

(** [e === "lit"]. *)
Definition is_string (e : value) (lit : string) : bool :=
  match e with VStr s => String.eqb s lit | _ => false end.

(** [v === e] for an [e] that is the integral number [z]; the one
    comparison of numbers in the program, [item_id === e] under
    [isPositiveInt(e)]. *)
Definition is_integer (v : value) (z : Z) : bool :=
  match v with VNum (Integer m) => m =? z | _ => false end.

(** [Array.prototype.flat()], one level. *)
Definition Array_flat (l : list value) : list value :=
  concat (map (λ v, match v with VArr l' => l' | _ => [v] end) l).

(** ** The store *)

(** The private fields of the three classes.  A field is [undefined]
    until its setter has run. *)
Record Box := mkBox {
  qty : value;
  description : value;
  parentItem : value
}.

(** [boxes] is a [Set] of Box instances: a JavaScript [Set] iterates in
    insertion order, so it is the list of its members in that order. *)
Record Item := mkItem {
  collection : value;
  item_name : value;
  item_id : value;
  boxes : list loc
}.

Record Container := mkContainer {
  itemList : list loc
}.

Record heap := mkHeap {
  h_items : list Item;
  h_boxes : list Box;
  h_containers : list Container
}.

Definition empty_heap : heap := mkHeap [] [] [].

(** [Set.prototype.has], [add], [delete] and [size]. *)
Definition Set_has (s : list loc) (x : loc) : bool := bool_decide (x ∈ s).

Definition Set_add (s : list loc) (x : loc) : list loc :=
  if Set_has s x then s else s ++ [x].

Definition Set_delete (s : list loc) (x : loc) : list loc :=
  filter (λ y, y ≠ x) s.

Definition Set_size (s : list loc) : nat := length s.

(** ** Computations on the store that may throw *)

Definition M (A : Type) : Type := heap → result A * heap.

Definition ret {A} (a : A) : M A := λ h, (Ok a, h).

Definition throw {A} (err : error) : M A := λ h, (Throw err, h).

Definition bind {A B} (m : M A) (k : A → M B) : M B := λ h,
  match m h with
  | (Ok a, h') => k a h'
  | (Throw err, h') => (Throw err, h')
  end.

Definition lift {A} (r : result A) : M A := λ h, (r, h).

Declare Scope js_scope.
Delimit Scope js_scope with js.
Notation "'let!' x ':=' m 'in' k" := (bind m (λ x, k))
  (at level 10, x name, m at level 100, k at level 200,
   format "'[v' 'let!'  x  ':='  m  'in' '/' k ']'") : js_scope.
Notation "m ';;' k" := (bind m (λ _, k))
  (at level 100, k at level 200, right associativity) : js_scope.
Local Open Scope js_scope.

(** [l.forEach(f)], [l.map(f)] and [l.filter(f)] with a callback that
    acts on the store and may throw. *)
Fixpoint forEach {A} (f : A → M unit) (l : list A) : M unit :=
  match l with
  | [] => ret tt
  | x :: r => f x;; forEach f r
  end.

Fixpoint mapM {A B} (f : A → M B) (l : list A) : M (list B) :=
  match l with
  | [] => ret []
  | x :: r => let! y := f x in let! ys := mapM f r in ret (y :: ys)
  end.

Fixpoint filterM {A} (f : A → M bool) (l : list A) : M (list A) :=
  match l with
  | [] => ret []
  | x :: r =>
      let! keep := f x in
      let! ys := filterM f r in
      ret (if keep then x :: ys else ys)
  end.

(** [new C]: the instance is the next location of its class. *)
Definition alloc_Box : M loc := λ h,
  (Ok (length (h_boxes h)),
   mkHeap (h_items h)
          (h_boxes h ++ [mkBox VUndefined VUndefined VUndefined])
          (h_containers h)).

Definition alloc_Item : M loc := λ h,
  (Ok (length (h_items h)),
   mkHeap (h_items h ++ [mkItem VUndefined VUndefined VUndefined []])
          (h_boxes h) (h_containers h)).

Definition alloc_Container : M loc := λ h,
  (Ok (length (h_containers h)),
   mkHeap (h_items h) (h_boxes h) (h_containers h ++ [mkContainer []])).

(** Reading and writing the private fields of [this]. *)
Definition read_Box (this : loc) : M Box := λ h,
  match h_boxes h !! this with
  | Some b => (Ok b, h)
  | None => (Throw TypeError, h)
  end.

Definition read_Item (this : loc) : M Item := λ h,
  match h_items h !! this with
  | Some it => (Ok it, h)
  | None => (Throw TypeError, h)
  end.

Definition read_Container (this : loc) : M Container := λ h,
  match h_containers h !! this with
  | Some c => (Ok c, h)
  | None => (Throw TypeError, h)
  end.

Definition write_Box (this : loc) (f : Box → Box) : M unit := λ h,
  (Ok tt, mkHeap (h_items h) (alter f this (h_boxes h)) (h_containers h)).

Definition write_Item (this : loc) (f : Item → Item) : M unit := λ h,
  (Ok tt, mkHeap (alter f this (h_items h)) (h_boxes h) (h_containers h)).

Definition write_Container (this : loc) (f : Container → Container)
  : M unit := λ h,
  (Ok tt, mkHeap (h_items h) (h_boxes h) (alter f this (h_containers h))).

(** ** class Box *)

Definition Box_set_description (this : loc) (e : value) : M unit :=
  if isNonEmptyString e then
    write_Box this (λ b, mkBox (qty b) e (parentItem b))
  else throw (InvalidArgument "box.description" e).

Definition Box_get_description (this : loc) : M value :=
  let! b := read_Box this in ret (description b).

Definition Box_set_qty (this : loc) (e : value) : M unit :=
  if isPositiveInt e then
    write_Box this (λ b, mkBox e (description b) (parentItem b))
  else throw (InvalidArgument "box.qty" e).

Definition Box_get_qty (this : loc) : M value :=
  let! b := read_Box this in ret (qty b).

Definition Box_setParentItem (this : loc) (e : value) : M unit :=
  if instanceof_Item e then
    write_Box this (λ b, mkBox (qty b) (description b) e)
  else throw (InvalidArgument "box.parentItem" e).

Definition Box_getParentItem (this : loc) : M value :=
  let! b := read_Box this in ret (parentItem b).

Definition new_Box (qty description parentItem : value) : M loc :=
  let! this := alloc_Box in
  Box_set_qty this qty;;
  Box_set_description this description;;
  Box_setParentItem this parentItem;;
  ret this.

(** ** class Item *)

Definition Item_set_collection (this : loc) (e : value) : M unit :=
  if isNonEmptyString e then
    let! t := lift (method_trim e) in
    write_Item this (λ it, mkItem t (item_name it) (item_id it) (boxes it))
  else throw (InvalidArgument "collection" e).

Definition Item_set_item_name (this : loc) (e : value) : M unit :=
  if isNonEmptyString e then
    let! t := lift (method_trim e) in
    write_Item this (λ it, mkItem (collection it) t (item_id it) (boxes it))
  else throw (InvalidArgument "item_name" e).

Definition Item_set_item_id (this : loc) (e : value) : M unit :=
  if isPositiveInt e then
    write_Item this
      (λ it, mkItem (collection it) (item_name it) e (boxes it))
  else throw (InvalidArgument "item_id" e).

(** The callback of [forEach] in [addBoxes]: build the Box of one
    descriptor and add it to the set. *)
Definition Item_addBoxes_each (this : loc) (el : value) : M unit :=
  let! q := lift (get_index el 0) in
  let! d := lift (get_index el 1) in
  let! box := new_Box q d (VItem this) in
  write_Item this (λ it,
    mkItem (collection it) (item_name it) (item_id it)
           (Set_add (boxes it) box)).

(** [addBoxes(...e)]: [e] is the array of the arguments, so
    [Array.isArray(e)] holds. *)
Definition Item_addBoxes (this : loc) (e : list value) : M unit :=
  if (0 <? length e)%nat then forEach (Item_addBoxes_each this) e
  else throw (InvalidArgument "boxes" (VArr e)).

Definition Item_removeBox (this : loc) (e : value) : M unit :=
  let! it := read_Item this in
  match e with
  | VBox b =>
      if truthy e && instanceof_Box e && Set_has (boxes it) b then
        if (Set_size (boxes it) <? 2)%nat then throw MustHaveOneBox
        else
          write_Item this (λ it,
            mkItem (collection it) (item_name it) (item_id it)
                   (Set_delete (boxes it) b))
      else throw (InvalidArgument "item.removeBox" e)
  | _ => throw (InvalidArgument "item.removeBox" e)
  end.

Definition Item_getDataAsOBJ (this : loc) : M value :=
  let! it := read_Item this in
  ret (VObj [("collection", collection it);
             ("item_name", item_name it);
             ("item_id", item_id it);
             ("boxes", VArr (VBox <$> boxes it))]).

Definition Item_getDataAsJson (this : loc) : M value :=
  let! it := read_Item this in
  let! bs := mapM (λ v,
      let! q := Box_get_qty v in
      let! d := Box_get_description v in
      ret (VObj [("qty", q); ("description", d)])) (boxes it) in
  ret (VObj [("collection", collection it);
             ("item_name", item_name it);
             ("item_id", item_id it);
             ("boxes", VArr bs)]).

Definition Item_getDataAsTable (this : loc) : M value :=
  let! it := read_Item this in
  let! tableData := mapM (λ el,
      let! q := Box_get_qty el in
      let! d := Box_get_description el in
      ret (VObj [("collection", collection it);
                 ("item_name", item_name it);
                 ("item_id", item_id it);
                 ("box_qty", q);
                 ("box_description", d)])) (boxes it) in
  ret (VArr tableData).

(** [getItemData(e = "obj")]: a missing or [undefined] argument is
    ["obj"]. *)
Definition Item_getItemData (this : loc) (e : value) : M value :=
  let e := match e with VUndefined => VStr "obj" | _ => e end in
  if negb (isNonEmptyString e) then
    throw (InvalidArgument "item.getItemData" e)
  else
    let! e := lift (method_toLowerCase e) in
    if is_string e "obj" then Item_getDataAsOBJ this
    else if is_string e "json" then Item_getDataAsJson this
    else if is_string e "table" then Item_getDataAsTable this
    else ret VNull.

Definition Item_getBoxesByName (this : loc) (e : value) : M value :=
  if negb (isNonEmptyString e) then
    throw (InvalidArgument "item.getBoxesByName" e)
  else
    let! it := read_Item this in
    let! filterded := filterM (λ v,
        let! d := Box_get_description v in
        let! t := lift (method_trim e) in
        ret (match d, t with
             | VStr a, VStr b => String.eqb a b
             | _, _ => false
             end)) (boxes it) in
    ret (VArr (VBox <$> filterded)).

Definition new_Item (collection item_name item_id : value)
    (boxes : list value) : M loc :=
  let! this := alloc_Item in
  Item_set_collection this collection;;
  Item_set_item_name this item_name;;
  Item_set_item_id this item_id;;
  Item_addBoxes this boxes;;
  ret this.

(** [remove()] of class Box, after Item: it calls [removeBox] on the
    parent. *)
Definition Box_remove (this : loc) : M unit :=
  let! b := read_Box this in
  match parentItem b with
  | VItem p => Item_removeBox p (VBox this)
  | _ => throw TypeError
  end.

(** ** class Container *)

(** The [Set] of a Container holds Item instances only. *)
Definition Container_add (this : loc) (item : loc) : M unit :=
  write_Container this (λ c, mkContainer (Set_add (itemList c) item)).

(** The callback of [forEach] in [addItems].  In
    [new Item(e.collection, e.item_name, e.item_id, e.boxes)] the fourth
    argument is the whole of the rest parameter [boxes] of the Item
    constructor, which hands it to [addBoxes] as its one descriptor. *)
Definition Container_addItems_each (this : loc) (e : value) : M unit :=
  match e with
  | VItem l => Container_add this l
  | _ =>
      let! c := lift (get_field e "collection") in
      let! n := lift (get_field e "item_name") in
      let! i := lift (get_field e "item_id") in
      let! b := lift (get_field e "boxes") in
      let! item := new_Item c n i [b] in
      Container_add this item
  end.

Definition Container_addItems (this : loc) (e : list value) : M unit :=
  forEach (Container_addItems_each this) e.

Definition new_Container (e : list value) : M loc :=
  let! this := alloc_Container in
  Container_addItems this e;;
  ret this.

Definition Container_getItemsById (this : loc) (e : value) : M value :=
  if isPositiveInt e then
    let! c := read_Container this in
    let! found := filterM (λ el,
        let! d := Item_getItemData el VUndefined in
        let! id := lift (get_field d "item_id") in
        ret (match e with
             | VNum (Integer z) => is_integer id z
             | _ => false
             end)) (itemList c) in
    ret (VArr (VItem <$> found))
  else throw (InvalidArgument "Container.getItemsById" e).

Definition Container_deleteItem (this : loc) (e : value) : M unit :=
  let! c := read_Container this in
  match e with
  | VItem l =>
      if truthy e && instanceof_Item e && Set_has (itemList c) l then
        write_Container this (λ c, mkContainer (Set_delete (itemList c) l))
      else throw (InvalidArgument "Container.deleteItem" e)
  | _ => throw (InvalidArgument "Container.deleteItem" e)
  end.

Definition Container_getDataAsObj (this : loc) : M value :=
  let! c := read_Container this in
  ret (VArr (VItem <$> itemList c)).

Definition Container_getDataAsJson (this : loc) : M value :=
  let! c := read_Container this in
  let! r := mapM (λ el, Item_getItemData el (VStr "json")) (itemList c) in
  ret (VArr r).

Definition Container_getDataAsTable (this : loc) : M value :=
  let! c := read_Container this in
  let! r := mapM (λ el, Item_getItemData el (VStr "table")) (itemList c) in
  ret (VArr (Array_flat r)).

Definition Container_getContainerData (this : loc) (e : value) : M value :=
  if negb (isNonEmptyString e) then
    throw (InvalidArgument "Container.getContainerData" e)
  else
    let! e := lift (method_toLowerCase e) in
    if is_string e "obj" then Container_getDataAsObj this
    else if is_string e "json" then Container_getDataAsJson this
    else if is_string e "table" then Container_getDataAsTable this
    else ret VNull.

(** ** Callers

    What a caller holding references can do to the store: any method or
    constructor of the three classes, on any arguments.  A caller may
    catch what a call throws and go on, so a step is the store a call
    leaves behind, whatever its outcome. *)
Inductive call :=
| Call_new_Box (qty description parentItem : value)
| Call_Box_set_qty (this : loc) (e : value)
| Call_Box_set_description (this : loc) (e : value)
| Call_Box_get_qty (this : loc)
| Call_Box_get_description (this : loc)
| Call_Box_getParentItem (this : loc)
| Call_Box_remove (this : loc)
| Call_new_Item (collection item_name item_id : value) (boxes : list value)
| Call_Item_set_collection (this : loc) (e : value)
| Call_Item_set_item_name (this : loc) (e : value)
| Call_Item_set_item_id (this : loc) (e : value)
| Call_Item_addBoxes (this : loc) (e : list value)
| Call_Item_removeBox (this : loc) (e : value)
| Call_Item_getItemData (this : loc) (e : value)
| Call_Item_getBoxesByName (this : loc) (e : value)
| Call_new_Container (e : list value)
| Call_Container_addItems (this : loc) (e : list value)
| Call_Container_getItemsById (this : loc) (e : value)
| Call_Container_deleteItem (this : loc) (e : value)
| Call_Container_getContainerData (this : loc) (e : value).

Definition exec (c : call) : M unit :=
  match c with
  | Call_new_Box q d p => new_Box q d p;; ret tt
  | Call_Box_set_qty this e => Box_set_qty this e
  | Call_Box_set_description this e => Box_set_description this e
  | Call_Box_get_qty this => Box_get_qty this;; ret tt
  | Call_Box_get_description this => Box_get_description this;; ret tt
  | Call_Box_getParentItem this => Box_getParentItem this;; ret tt
  | Call_Box_remove this => Box_remove this
  | Call_new_Item c n i bs => new_Item c n i bs;; ret tt
  | Call_Item_set_collection this e => Item_set_collection this e
  | Call_Item_set_item_name this e => Item_set_item_name this e
  | Call_Item_set_item_id this e => Item_set_item_id this e
  | Call_Item_addBoxes this e => Item_addBoxes this e
  | Call_Item_removeBox this e => Item_removeBox this e
  | Call_Item_getItemData this e => Item_getItemData this e;; ret tt
  | Call_Item_getBoxesByName this e => Item_getBoxesByName this e;; ret tt
  | Call_new_Container e => new_Container e;; ret tt
  | Call_Container_addItems this e => Container_addItems this e
  | Call_Container_getItemsById this e =>
      Container_getItemsById this e;; ret tt
  | Call_Container_deleteItem this e => Container_deleteItem this e
  | Call_Container_getContainerData this e =>
      Container_getContainerData this e;; ret tt
  end.

(** The Items a caller can hold: one returned by the Item constructor,
    one a Container built from a raw descriptor (in its constructor or in
    [addItems], which keeps what it added before a throw), and any of these
    after any further call. *)
Inductive reachable : heap → loc → Prop :=
| reachable_new_Item h c n i bs l h' :
    new_Item c n i bs h = (Ok l, h') →
    reachable h' l
| reachable_new_Container h e this h' c l :
    new_Container e h = (Ok this, h') →
    h_containers h' !! this = Some c →
    l ∈ itemList c →
    VItem l ∉ e →
    reachable h' l
| reachable_addItems h this e r h' c c' l :
    Container_addItems this e h = (r, h') →
    h_containers h !! this = Some c →
    h_containers h' !! this = Some c' →
    l ∈ itemList c' →
    l ∉ itemList c →
    VItem l ∉ e →
    reachable h' l
| reachable_step h l c :
    reachable h l →
    reachable (exec c h).2 l.

(** The Item at [l] is in the store and its box set satisfies [φ]. *)
Definition boxes_satisfy (φ : list loc → Prop) (l : loc) (h : heap) : Prop :=
  ∃ it, h_items h !! l = Some it ∧ φ (boxes it).

(** An Item in the store whose box set has at least one member. *)
Definition has_a_box (l : loc) (h : heap) : Prop :=
  boxes_satisfy (λ bs, NoDup bs ∧ (1 ≤ Set_size bs)%nat) l h.

(** What a box set satisfies it still does after [Set.add]. *)
Definition add_closed (φ : list loc → Prop) : Prop :=
  ∀ bs x, φ bs → φ (Set_add bs x).

(** Every Item of the container [this] was in it from the start, or was
    handed to [addItems] as an instance, or has a box. *)
Definition items_accounted (this : loc) (old : list loc) (e : list value)
    (h : heap) : Prop :=
  ∀ c l, h_containers h !! this = Some c → l ∈ itemList c →
         l ∈ old ∨ VItem l ∈ e ∨ has_a_box l h.

(** A box descriptor [el] that the Box constructor accepts: [el[0]] is a
    positive integer and [el[1]] a string that is not blank. *)
Definition valid_descriptor (el : value) : Prop :=
  ∃ q d, get_index el 0 = Ok q ∧ get_index el 1 = Ok d
         ∧ isPositiveInt q = true ∧ isNonEmptyString d = true.

(** The Box that [addBoxes] of [this] builds from a descriptor. *)
Definition box_of (this : loc) (el : value) : Box :=
  mkBox (match get_index el 0 with Ok q => q | Throw _ => VUndefined end)
        (match get_index el 1 with Ok d => d | Throw _ => VUndefined end)
        (VItem this).


(** An Item of the store all of whose boxes are in the store. *)
Definition item_in_store (h : heap) (l : loc) : Prop :=
  ∃ it, h_items h !! l = Some it
        ∧ ∀ b, b ∈ boxes it → is_Some (h_boxes h !! b).

(** ** Well-formed stores *)

(** The Box at [b] is in the store, its parent is the Item at [l], its
    quantity is a positive integer and its description is not blank. *)
Definition box_ok (h : heap) (l b : loc) : Prop :=
  ∃ bx, h_boxes h !! b = Some bx
        ∧ parentItem bx = VItem l
        ∧ isPositiveInt (qty bx) = true
        ∧ isNonEmptyString (description bx) = true.

(** Every box set is without repetition and holds Boxes of the store
    that know their Item; every Container holds, without repetition, Items
    of the store. *)
Definition wf_store (h : heap) : Prop :=
  (∀ l it, h_items h !! l = Some it →
     NoDup (boxes it) ∧ ∀ b, b ∈ boxes it → box_ok h l b)
  ∧ (∀ c ct, h_containers h !! c = Some ct →
     NoDup (itemList ct) ∧ ∀ l, l ∈ itemList ct → is_Some (h_items h !! l)).

(** The Item instances handed to a Container are Items of the store. *)
Definition valid_refs (h : heap) (c : call) : Prop :=
  match c with
  | Call_new_Container e | Call_Container_addItems _ e =>
      ∀ l, VItem l ∈ e → is_Some (h_items h !! l)
  | _ => True
  end.

(** The stores a program can be in: the empty one, and the one any call
    leaves behind. *)
Inductive store : heap → Prop :=
| store_empty : store empty_heap
| store_call h c : store h → valid_refs h c → store (exec c h).2.

(** The calls that read. *)
Definition is_read (c : call) : bool :=
  match c with
  | Call_Box_get_qty _ | Call_Box_get_description _
  | Call_Box_getParentItem _ | Call_Item_getItemData _ _
  | Call_Item_getBoxesByName _ _ | Call_Container_getItemsById _ _
  | Call_Container_getContainerData _ _ => true
  | _ => false
  end.

(** ** Further definitions for the properties *)

(** The test of [valid_descriptor]. *)
Definition valid_descriptorb (el : value) : bool :=
  match get_index el 0, get_index el 1 with
  | Ok q, Ok d => isPositiveInt q && isNonEmptyString d
  | _, _ => false
  end.

(** The record that the JSON view gives for the Box of a descriptor. *)
Definition json_of_descriptor (el : value) : value :=
  VObj [("qty", match get_index el 0 with Ok q => q | Throw _ => VUndefined end);
        ("description",
         match get_index el 1 with Ok d => d | Throw _ => VUndefined end)].

(** The record of the Box at [b] in the JSON view, and its row in the
    table view of its Item. *)
Definition box_json (h : heap) (b : loc) : value :=
  VObj [("qty", default VUndefined (qty <$> h_boxes h !! b));
        ("description", default VUndefined (description <$> h_boxes h !! b))].

Definition box_row (h : heap) (it : Item) (b : loc) : value :=
  VObj [("collection", collection it);
        ("item_name", item_name it);
        ("item_id", item_id it);
        ("box_qty", default VUndefined (qty <$> h_boxes h !! b));
        ("box_description",
         default VUndefined (description <$> h_boxes h !! b))].

(** What [trimStart] does on the list of the characters. *)
Fixpoint drop_white (l : list ascii) : list ascii :=
  match l with
  | [] => []
  | c :: r => if is_white_space c then drop_white r else l
  end.

(** The Box at [b] has the string [s] as its description. *)
Definition has_description (h : heap) (s : string) (b : loc) : bool :=
  match h_boxes h !! b with
  | Some bx =>
      match description bx with
      | VStr a => String.eqb a s
      | _ => false
      end
  | None => false
  end.

(** The JSON view of the Item at [l], and its rows in the table view. *)
Definition item_json (h : heap) (l : loc) : value :=
  match h_items h !! l with
  | Some it =>
      VObj [("collection", collection it);
            ("item_name", item_name it);
            ("item_id", item_id it);
            ("boxes", VArr (box_json h <$> boxes it))]
  | None => VUndefined
  end.

Definition item_rows (h : heap) (l : loc) : list value :=
  match h_items h !! l with
  | Some it => box_row h it <$> boxes it
  | None => []
  end.

(** Well formed, with the Item instances of [e] in the store. *)
Definition wf_with (e : list value) (h : heap) : Prop :=
  wf_store h ∧ ∀ l, VItem l ∈ e → is_Some (h_items h !! l).

(** ** Reasoning on computations

    [triple P m Q E]: from a store in [P], [m] returns [a] in a store in
    [Q a], or throws in a store in [E]. *)
Definition triple {A} (P : heap → Prop) (m : M A)
    (Q : A → heap → Prop) (E : heap → Prop) : Prop :=
  ∀ h, P h →
    match m h with
    | (Ok a, h') => Q a h'
    | (Throw _, h') => E h'
    end.

(** [m] keeps [P], whether it returns or throws. *)
Definition preserves {A} (P : heap → Prop) (m : M A) : Prop :=
  triple P m (λ _, P) P.

(** ** Raw descriptors and stores to try the program on *)

Definition num (z : Z) : value := VNum (Integer z).

(** A raw descriptor [{collection, item_name, item_id, boxes}]. *)
Definition raw_descriptor (collection item_name item_id boxes : value)
  : value :=
  VObj [("collection", collection); ("item_name", item_name);
        ("item_id", item_id); ("boxes", boxes)].

(** A raw descriptor whose [boxes] is one [[qty, description]] pair,
    not an array of pairs. *)
Record one_box_descriptor := mkDescriptor {
  d_collection : string;
  d_item_name : string;
  d_item_id : Z;
  d_qty : Z;
  d_description : string
}.

Definition raw_of (d : one_box_descriptor) : value :=
  raw_descriptor (VStr (d_collection d)) (VStr (d_item_name d))
    (num (d_item_id d)) (VArr [num (d_qty d); VStr (d_description d)]).

Definition valid_one_box (d : one_box_descriptor) : Prop :=
  trim (d_collection d) ≠ "" ∧ trim (d_item_name d) ≠ ""
  ∧ 0 < d_item_id d ∧ 0 < d_qty d ∧ trim (d_description d) ≠ "".

(** The Item a Container builds from such a descriptor, its Box at [b]. *)
Definition item_of (d : one_box_descriptor) (b : loc) : Item :=
  mkItem (VStr (trim (d_collection d))) (VStr (trim (d_item_name d)))
         (num (d_item_id d)) [b].

(** The descriptor of the failing round trip: [boxes] is an array of
    [[qty, description]] pairs. *)
Definition two_boxes_descriptor : value :=
  raw_descriptor (VStr "shelf") (VStr "bolt") (num 3)
    (VArr [VArr [num 5; VStr "small"]; VArr [num 10; VStr "large"]]).

Definition small_box : value := VArr [num 5; VStr "small"].
Definition large_box : value := VArr [num 10; VStr "large"].

(** Item 0 with the one box 0. *)
Definition one_box_store : heap :=
  snd (new_Item (VStr "shelf") (VStr "bolt") (num 3) [small_box] empty_heap).

(** Item 0 with the boxes 0 and 1, Item 1 with the box 2, both with
    [item_id] 3, and Container 0 holding the two. *)
Definition example_store : heap :=
  snd ((new_Item (VStr "shelf") (VStr "bolt") (num 3) [small_box; large_box];;
        new_Item (VStr " bin ") (VStr "nut") (num 3) [small_box];;
        new_Container [VItem 0%nat; VItem 1%nat]) empty_heap).

(** The store of the example with the description of Box 2 reset to a
    string with white space at both ends. *)
Definition untrimmed_store : heap :=
  snd (Box_set_description 2 (VStr " tiny ") example_store).

(** ** lib/auth.js: class Auth

    The request gives the Authorization header and the session cookie,
    each a string or absent.  The outcomes of the two queries of the
    database, of which [isVerified] awaits one at most, the base-64
    decoder of [Buffer] and the password of the environment are what the
    class is run in: they are arguments of its methods. *)
Module Auth.

Record request := mkRequest {
  authorization : option string;
  session : option string
}.

(** A row of [user_cookies]; [is_verified] as its truth value. *)
Record record := mkRecord {
  cookie_string : option string;
  is_verified : bool;
  record_id : string
}.

(** What an awaited query gives: it throws, or it resolves to
    [{error, data}], [error] as its truth value and [data] an array or
    [null]. *)
Inductive db_response :=
| Rejected
| Resolved (error : bool) (data : option (list record)).

(** The private fields [#authHeader] and [#sessionCookie]. *)
Record t := mkAuth {
  authHeader : option string;
  sessionCookie : option string
}.

(** [x || null] for a string or absent [x]: the empty string is
    falsy. *)
Definition or_null (x : option string) : option string :=
  match x with
  | Some s => if String.eqb s "" then None else Some s
  | None => None
  end.

Definition new (req : request) : t :=
  mkAuth (or_null (authorization req)) (or_null (session req)).

(** The truth value of a field that is a string or [null]. *)
Definition truthy (x : option string) : bool :=
  match x with
  | Some s => negb (String.eqb s "")
  | None => false
  end.

(** [s.startsWith(p)], and [s.replace(pat, rep)] with a string pattern:
    the first occurrence only. *)
Definition startsWith (s p : string) : bool := String.prefix p s.

Definition replace (s pat rep : string) : string :=
  match String.index 0 pat s with
  | Some n =>
      String.append (String.substring 0 n s)
        (String.append rep
           (String.substring (n + String.length pat)
              (String.length s - (n + String.length pat)) s))
  | None => s
  end.

Record cookie_check := mkCheck {
  found : bool;
  check_verified : bool;
  check_id : option string
}.

Record cookie_result := mkResult {
  success : bool;
  cookie : option string;
  result_id : option string
}.

Record auth_result := mkAuthResult {
  verified : bool;
  reason : string;
  newCookie : option string
}.

Section Env.
Variable base64_decode : string → string.
Variable data_password : option string.
Variable insert_cookie : db_response.
Variable select_cookie : string → db_response.

(** [!this.#authHeader?.startsWith('Basic ')] is true when the header
    is [null]. *)
Definition authHeaderPasswordMatch (this : t) : bool :=
  match authHeader this with
  | None => false
  | Some h =>
      if negb (startsWith h "Basic ") then false
      else
        let encodedPassword := replace h "Basic " "" in
        let expectedPassword := data_password in
        let decodedPassword := base64_decode encodedPassword in
        match expectedPassword with
        | Some p => String.eqb decodedPassword p
        | None => false
        end
  end.

(** Reading [data.length] or a field of [data[0]] when there is none
    throws inside the [try], and the [catch] returns the false object. *)
Definition isCookieVerified (this : t) : cookie_check :=
  let falseReturnObject := mkCheck false false None in
  if negb (truthy (sessionCookie this)) then falseReturnObject
  else
    match select_cookie (default "" (sessionCookie this)) with
    | Rejected => falseReturnObject
    | Resolved true _ => falseReturnObject
    | Resolved false None => falseReturnObject
    | Resolved false (Some []) => falseReturnObject
    | Resolved false (Some (record :: _)) =>
        mkCheck true (is_verified record) (Some (record_id record))
    end.

Definition createCookie : cookie_result :=
  let falseReturnObject := mkResult false None None in
  match insert_cookie with
  | Rejected => falseReturnObject
  | Resolved true _ => falseReturnObject
  | Resolved false (Some (record :: _)) =>
      mkResult true (cookie_string record) (Some (record_id record))
  | Resolved false _ => falseReturnObject
  end.

Definition isVerified (this : t) : auth_result :=
  let returnObject := mkAuthResult false "" None in
  if truthy (authHeader this) then
    if negb (startsWith (default "" (authHeader this)) "Basic ") then
      mkAuthResult (verified returnObject)
        "Invalid Authorization header format" (newCookie returnObject)
    else if negb (authHeaderPasswordMatch this) then
      mkAuthResult (verified returnObject)
        "Authorization header password does not match"
        (newCookie returnObject)
    else
      let cookieResult := createCookie in
      mkAuthResult true "Authorization header verified"
        (if success cookieResult then cookie cookieResult else None)
  else if truthy (sessionCookie this) then
    let cookieCheck := isCookieVerified this in
    if found cookieCheck && check_verified cookieCheck then
      mkAuthResult true "Session cookie verified" (newCookie returnObject)
    else if found cookieCheck && negb (check_verified cookieCheck) then
      mkAuthResult (verified returnObject) "Session cookie not verified"
        (newCookie returnObject)
    else
      mkAuthResult (verified returnObject)
        "Session cookie not found in database" (newCookie returnObject)
  else
    mkAuthResult (verified returnObject)
      "No Authorization header or session cookie provided"
      (newCookie returnObject).
End Env.

End Auth.

(** A stand-in for the decoder: the one text it knows decodes to
    ["secret"]. *)
Definition toy_decode (s : string) : string :=
  if String.eqb s "c2VjcmV0" then "secret" else "".

(** * Properties *)

Section Triples.
Context {A B : Type}.
Implicit Types (P E : heap → Prop) (h : heap).

Lemma triple_ret P (a : A) (Q : A → heap → Prop) E :
  (∀ h, P h → Q a h) → triple P (ret a) Q E.
Proof. intros HQ h HP. by apply HQ. Qed.

Lemma triple_throw P err (Q : A → heap → Prop) E :
  (∀ h, P h → E h) → triple P (throw err) Q E.
Proof. intros HE h HP. by apply HE. Qed.

Lemma triple_lift P (r : result A) (Q : A → heap → Prop) E :
  (∀ h a, P h → r = Ok a → Q a h) → (∀ h, P h → E h) →
  triple P (lift r) Q E.
Proof.
  intros HQ HE h HP. unfold lift. destruct r; [by eapply HQ | by apply HE].
Qed.

Lemma triple_bind P (m : M A) (k : A → M B) R Q E :
  triple P m R E → (∀ a, triple (R a) (k a) Q E) →
  triple P (bind m k) Q E.
Proof.
  intros Hm Hk h HP. unfold bind. specialize (Hm h HP).
  destruct (m h) as [[a|err] h1]; [by apply Hk | done].
Qed.

Lemma triple_conseq P P' (m : M A) (Q Q' : A → heap → Prop) E E' :
  triple P' m Q' E' →
  (∀ h, P h → P' h) → (∀ a h, Q' a h → Q a h) → (∀ h, E' h → E h) →
  triple P m Q E.
Proof.
  intros Hm HP HQ HE h Hh. specialize (Hm h (HP h Hh)).
  destruct (m h) as [[a|err] h1]; auto.
Qed.

Lemma preserves_ret P (a : A) : preserves P (ret a).
Proof. by apply triple_ret. Qed.

Lemma preserves_throw P err : preserves P (@throw A err).
Proof. by apply triple_throw. Qed.

Lemma preserves_lift P (r : result A) : preserves P (lift r).
Proof. by apply triple_lift. Qed.

Lemma preserves_bind P (m : M A) (k : A → M B) :
  preserves P m → (∀ a, preserves P (k a)) → preserves P (bind m k).
Proof. intros Hm Hk. eapply triple_bind; [exact Hm | exact Hk]. Qed.

Lemma preserves_run P (m : M A) h : preserves P m → P h → P (m h).2.
Proof.
  intros Hm HP. specialize (Hm h HP). by destruct (m h) as [[a|err] h1].
Qed.

End Triples.

Lemma preserves_forEach {A} P (f : A → M unit) (l : list A) :
  (∀ x, x ∈ l → preserves P (f x)) → preserves P (forEach f l).
Proof.
  induction l as [|x l IH]; intros Hf; [apply preserves_ret|].
  simpl. apply preserves_bind.
  - apply Hf, list_elem_of_here.
  - intros _. apply IH. intros y Hy. by apply Hf, list_elem_of_further.
Qed.

Lemma preserves_mapM {A B} P (f : A → M B) (l : list A) :
  (∀ x, preserves P (f x)) → preserves P (mapM f l).
Proof.
  intros Hf. induction l as [|x l IH]; [apply preserves_ret|].
  simpl. apply preserves_bind; [apply Hf|]. intros y.
  apply preserves_bind; [apply IH|]. intros ys. apply preserves_ret.
Qed.

Lemma preserves_filterM {A} P (f : A → M bool) (l : list A) :
  (∀ x, preserves P (f x)) → preserves P (filterM f l).
Proof.
  intros Hf. induction l as [|x l IH]; [apply preserves_ret|].
  simpl. apply preserves_bind; [apply Hf|]. intros y.
  apply preserves_bind; [apply IH|]. intros ys. apply preserves_ret.
Qed.

Lemma preserves_read_Box P this : preserves P (read_Box this).
Proof. intros h HP. unfold read_Box. by destruct (h_boxes h !! this). Qed.

Lemma preserves_read_Item P this : preserves P (read_Item this).
Proof. intros h HP. unfold read_Item. by destruct (h_items h !! this). Qed.

Lemma preserves_read_Container P this : preserves P (read_Container this).
Proof.
  intros h HP. unfold read_Container. by destruct (h_containers h !! this).
Qed.

Create HintDb preserves discriminated.

(** Walk a computation down to its calls, and close these with the
    hints of [preserves]. *)
Ltac preserve :=
  repeat first
    [ apply preserves_ret
    | apply preserves_throw
    | apply preserves_lift
    | apply preserves_read_Box
    | apply preserves_read_Item
    | apply preserves_read_Container
    | solve [eauto with preserves]
    | match goal with
      | |- preserves _ (bind _ _) => apply preserves_bind; [|intros ?]
      | |- preserves _ (forEach _ _) => apply preserves_forEach; intros ? _
      | |- preserves _ (mapM _ _) => apply preserves_mapM; intros ?
      | |- preserves _ (filterM _ _) => apply preserves_filterM; intros ?
      | |- preserves _ (if ?b then _ else _) => destruct b
      | |- preserves _ (match ?e with _ => _ end) => destruct e
      end ].

(** ** Stores and strings: helper facts *)

(** Running a computation whose steps are known. *)
Ltac run :=
  repeat (progress
    (cbv beta delta [bind ret throw lift read_Box read_Item read_Container
                     write_Box write_Item write_Container
                     Box_get_qty Box_get_description Box_getParentItem];
     simpl)).

Lemma alter_lookup {X} (l : list X) (i : nat) (x : X) (f : X → X) :
  l !! i = Some x → alter f i l = <[i := f x]> l.
Proof.
  intros Hx. rewrite list_insert_alter.
  apply list_alter_ext; [|done]. intros y Hy. congruence.
Qed.

Lemma Set_has_true (s : list loc) (x : loc) : Set_has s x = true ↔ x ∈ s.
Proof. unfold Set_has. by rewrite bool_decide_eq_true. Qed.

Lemma Set_has_false (s : list loc) (x : loc) : Set_has s x = false ↔ x ∉ s.
Proof. unfold Set_has. by rewrite bool_decide_eq_false. Qed.

Lemma elem_of_Set_delete (s : list loc) (x y : loc) :
  y ∈ Set_delete s x ↔ y ∈ s ∧ y ≠ x.
Proof. unfold Set_delete. rewrite list_elem_of_filter. tauto. Qed.

Lemma isPositiveInt_true (e : value) :
  isPositiveInt e = true ↔ ∃ z, e = VNum (Integer z) ∧ 0 < z.
Proof.
  unfold isPositiveInt. split.
  - destruct e as [| |b|[z| | |b]|s|l|fs|l|l|l]; simpl;
      rewrite ?andb_false_r; try discriminate.
    intros [_ Hz%Z.ltb_lt]%andb_true_iff. eauto.
  - intros (z & -> & Hz). simpl.
    apply andb_true_iff. split; [|by apply Z.ltb_lt].
    apply negb_true_iff, Z.eqb_neq. lia.
Qed.

Lemma trim_empty_string : trim "" = "".
Proof. reflexivity. Qed.

Lemma isNonEmptyString_true (e : value) :
  isNonEmptyString e = true ↔ ∃ s, e = VStr s ∧ trim s ≠ "".
Proof.
  unfold isNonEmptyString. split.
  - destruct e as [| |b|n|s|l|fs|l|l|l]; simpl;
      rewrite ?andb_false_r; try discriminate.
    intros [_ Hlen%Nat.ltb_lt]%andb_true_iff. exists s. split; [done|].
    intros Heq. rewrite Heq in Hlen. simpl in Hlen. lia.
  - intros (s & -> & Hs). simpl. apply andb_true_iff. split.
    + destruct s; [by rewrite trim_empty_string in Hs | done].
    + apply Nat.ltb_lt. destruct (trim s); [done | simpl; lia].
Qed.

Lemma isNonEmptyString_false (e : value) :
  isNonEmptyString e = false ↔ ¬ ∃ s, e = VStr s ∧ trim s ≠ "".
Proof.
  rewrite <- isNonEmptyString_true. destruct (isNonEmptyString e); naive_solver.
Qed.


(** ** Container.deleteItem *)


(** ** Formats *)

Lemma lower_char_white_space (c : ascii) :
  is_white_space c = true → lower_char c = c.
Proof.
  destruct c as [[] [] [] [] [] [] [] []]; vm_compute;
    first [discriminate | reflexivity].
Qed.

Lemma white_space_lower_char (c : ascii) :
  is_white_space (lower_char c) = false → is_white_space c = false.
Proof.
  intros Hl. destruct (is_white_space c) eqn:Hc; [|done].
  rewrite (lower_char_white_space c Hc) in Hl. congruence.
Qed.

(** A string that lower-cases to one of the three format names has no
    white space, so it passes [isNonEmptyString]. *)
Lemma format_isNonEmptyString (f : string) :
  toLowerCase f = "obj" ∨ toLowerCase f = "json" ∨ toLowerCase f = "table" →
  isNonEmptyString (VStr f) = true.
Proof.
  intros Hf.
  destruct f as [|a [|b [|c [|d [|e [|x r]]]]]];
    simpl in Hf; destruct Hf as [Hf|[Hf|Hf]]; try discriminate;
    injection Hf as Hf; simplify_eq;
    repeat match goal with
    | H : lower_char ?c = _ |- _ =>
        let W := fresh "W" in
        assert (is_white_space c = false) as W
          by (apply white_space_lower_char; by rewrite H);
        clear H
    end.
  all: unfold isNonEmptyString, trim, trimEnd; simpl.
  all: repeat (match goal with
               | W : is_white_space _ = false |- _ => rewrite W
               end; cbn).
  all: reflexivity.
Qed.

(** ** Unrecognized formats *)

(** C5 (as the code has it): for every string that is not blank (not
    empty once trimmed) and that does not lower-case to ["obj"], ["json"]
    or ["table"], [Item.getItemData] and [Container.getContainerData]
    return [null] and throw nothing; the store is as it was.  A string
    that is empty once trimmed (the empty string, or white space only) is
    rejected by both methods with the invalid-argument error, which
    carries the string, and the store is as it was. *)
Theorem unrecognized_format_returns_null (h : heap) (this : loc) (s : string) :
  (trim s ≠ "" →
   toLowerCase s ≠ "obj" → toLowerCase s ≠ "json" → toLowerCase s ≠ "table" →
   Item_getItemData this (VStr s) h = (Ok VNull, h)
   ∧ Container_getContainerData this (VStr s) h = (Ok VNull, h))
  ∧ (trim s = "" →
     Item_getItemData this (VStr s) h
       = (Throw (InvalidArgument "item.getItemData" (VStr s)), h)
     ∧ Container_getContainerData this (VStr s) h
       = (Throw (InvalidArgument "Container.getContainerData" (VStr s)), h)
     ∧ is_ValidationError (InvalidArgument "item.getItemData" (VStr s))
       = true
     ∧ is_ValidationError
         (InvalidArgument "Container.getContainerData" (VStr s)) = true).
Proof.
  split.
  - intros Hs Ho Hj Ht.
    assert (isNonEmptyString (VStr s) = true) as Hne
      by (apply isNonEmptyString_true; eauto).
    unfold Item_getItemData, Container_getContainerData.
    rewrite Hne. simpl. unfold bind, lift. simpl.
    apply String.eqb_neq in Ho, Hj, Ht. by rewrite Ho, Hj, Ht.
  - intros Hs.
    assert (isNonEmptyString (VStr s) = false) as Hne.
    { apply isNonEmptyString_false. intros (s' & Heq & Hs').
      injection Heq as <-. by apply Hs'. }
    unfold Item_getItemData, Container_getContainerData.
    rewrite Hne. by split_and!.
Qed.

(** ** class Box: construction and setters *)

Lemma alter_snoc {X} (f : X → X) (l : list X) (x : X) :
  alter f (length l) (l ++ [x]) = l ++ [f x].
Proof.
  rewrite <- (Nat.add_0_r (length l)) at 1. by rewrite alter_app_r.
Qed.

(** What [new Box(q, d, p)] does, by the test that fails first. *)
Lemma new_Box_eq (q d p : value) (h : heap) :
  new_Box q d p h =
    let this := length (h_boxes h) in
    let after b := mkHeap (h_items h) (h_boxes h ++ [b]) (h_containers h) in
    if negb (isPositiveInt q) then
      (Throw (InvalidArgument "box.qty" q),
       after (mkBox VUndefined VUndefined VUndefined))
    else if negb (isNonEmptyString d) then
      (Throw (InvalidArgument "box.description" d),
       after (mkBox q VUndefined VUndefined))
    else if negb (instanceof_Item p) then
      (Throw (InvalidArgument "box.parentItem" p),
       after (mkBox q d VUndefined))
    else (Ok this, after (mkBox q d p)).
Proof.
  unfold new_Box, bind, alloc_Box, Box_set_qty, Box_set_description,
    Box_setParentItem.
  destruct (isPositiveInt q); simpl; [|done].
  rewrite alter_snoc. simpl.
  destruct (isNonEmptyString d); simpl; [|done].
  rewrite alter_snoc. simpl.
  destruct (instanceof_Item p); simpl; [|done].
  by rewrite alter_snoc.
Qed.


(** ** Item.getItemData("table") *)

(** C7: on an Item with exactly two boxes, [getItemData("table")] (in any
    letter case) returns two records, one per box in the order of the box
    set, each with the Item's [collection], [item_name] and [item_id] and
    the box's quantity and description under [box_qty] and
    [box_description]. *)
Theorem Item_getItemData_table_two_boxes
    (h : heap) (this : loc) (it : Item) (b1 b2 : loc) (x1 x2 : Box)
    (f : string) :
  h_items h !! this = Some it →
  boxes it = [b1; b2] →
  h_boxes h !! b1 = Some x1 →
  h_boxes h !! b2 = Some x2 →
  toLowerCase f = "table" →
  Item_getItemData this (VStr f) h
    = (Ok (VArr [VObj [("collection", collection it);
                       ("item_name", item_name it);
                       ("item_id", item_id it);
                       ("box_qty", qty x1);
                       ("box_description", description x1)];
                 VObj [("collection", collection it);
                       ("item_name", item_name it);
                       ("item_id", item_id it);
                       ("box_qty", qty x2);
                       ("box_description", description x2)]]), h).
Proof.
  intros Hit Hbs H1 H2 Hf.
  unfold Item_getItemData.
  rewrite (format_isNonEmptyString f) by auto. simpl.
  run. rewrite Hf. simpl. unfold Item_getDataAsTable. run.
  rewrite Hit, Hbs. run.
  repeat (first [rewrite H1 | rewrite H2]; run). reflexivity.
Qed.

(** ** Item.removeBox and Box.remove *)

Lemma Set_delete_size (s : list loc) (x : loc) :
  NoDup s → x ∈ s → S (Set_size (Set_delete s x)) = Set_size s.
Proof.
  unfold Set_size, Set_delete. induction 1 as [|y s Hy Hnd IH].
  - by intros ?%elem_of_nil.
  - intros Hx. rewrite filter_cons. destruct (decide (y ≠ x)) as [Hne|Heq].
    + simpl. f_equal. apply IH. by apply elem_of_cons in Hx as [->|Hx].
    + assert (y = x) as -> by (destruct (decide (y = x)); [done|tauto]).
      simpl. f_equal.
      clear IH Hx Hnd Heq. induction s as [|z s IH]; [done|].
      rewrite filter_cons. apply not_elem_of_cons in Hy as [Hzx Hs].
      rewrite decide_True by done. simpl. f_equal. by apply IH.
Qed.

(** C2: for a Box [b] of the box set of its own Item, [removeBox(b)], and
    [b.remove()] which is the same call, is refused with the
    must-have-one-box error exactly when the set has one member, and then
    the store is as it was; with two members or more the call returns,
    and the set loses [b] and nothing else. *)
Theorem Item_removeBox_spec
    (h : heap) (this : loc) (it : Item) (b : loc) (bx : Box) :
  h_items h !! this = Some it →
  b ∈ boxes it →
  h_boxes h !! b = Some bx →
  parentItem bx = VItem this →
  Box_remove b h = Item_removeBox this (VBox b) h
  ∧ (Set_size (boxes it) = 1%nat →
       Item_removeBox this (VBox b) h = (Throw MustHaveOneBox, h)
       ∧ is_InvariantViolation MustHaveOneBox = true)
  ∧ (Set_size (boxes it) ≠ 1%nat →
       (2 ≤ Set_size (boxes it))%nat
       ∧ Item_removeBox this (VBox b) h
         = (Ok tt,
            mkHeap (<[this := mkItem (collection it) (item_name it)
                                (item_id it) (Set_delete (boxes it) b)]>
                      (h_items h))
                   (h_boxes h) (h_containers h))
       ∧ (∀ b', b' ∈ Set_delete (boxes it) b ↔ b' ∈ boxes it ∧ b' ≠ b)
       ∧ (NoDup (boxes it) →
            S (Set_size (Set_delete (boxes it) b)) = Set_size (boxes it))).
Proof.
  intros Hit Hb Hbx Hp.
  assert (Set_has (boxes it) b = true) as Hhas by by apply Set_has_true.
  assert (1 ≤ Set_size (boxes it))%nat as Hpos.
  { unfold Set_size. destruct (boxes it); [by apply elem_of_nil in Hb|].
    simpl. lia. }
  split_and!.
  - unfold Box_remove, bind at 1. unfold read_Box. by rewrite Hbx, Hp.
  - intros Hsz. split; [|done].
    unfold Item_removeBox, bind, read_Item. rewrite Hit. simpl.
    by rewrite Hhas, Hsz.
  - intros Hsz. split_and!.
    + lia.
    + unfold Item_removeBox, bind, read_Item. rewrite Hit. simpl.
      rewrite Hhas. destruct (Nat.ltb_spec (Set_size (boxes it)) 2); [lia|].
      unfold write_Item. by rewrite (alter_lookup _ _ it).
    + intros b'. apply elem_of_Set_delete.
    + intros Hnd. by apply Set_delete_size.
Qed.

(** ** Item.addBoxes *)

Lemma Set_add_fresh (s : list loc) (x : loc) :
  x ∉ s → Set_add s x = s ++ [x].
Proof. intros Hx. unfold Set_add. by rewrite (proj2 (Set_has_false s x)). Qed.

(** One valid descriptor: its Box takes the next location and joins the
    set. *)
Lemma Item_addBoxes_each_valid (h : heap) (this : loc) (it : Item) (el : value) :
  h_items h !! this = Some it →
  (∀ b, b ∈ boxes it → (b < length (h_boxes h))%nat) →
  valid_descriptor el →
  Item_addBoxes_each this el h
    = (Ok tt,
       mkHeap (<[this := mkItem (collection it) (item_name it) (item_id it)
                           (boxes it ++ [length (h_boxes h)])]> (h_items h))
              (h_boxes h ++ [box_of this el])
              (h_containers h)).
Proof.
  intros Hit Hin (q & d & Hq & Hd & Hqv & Hdv).
  unfold Item_addBoxes_each, box_of. rewrite Hq, Hd.
  unfold bind at 1. unfold lift at 1.
  unfold bind at 1. unfold lift at 1.
  unfold bind at 1. rewrite new_Box_eq, Hqv, Hdv. simpl.
  unfold write_Item. simpl. rewrite (alter_lookup _ _ it) by done.
  rewrite Set_add_fresh; [done|].
  intros Hb%Hin. lia.
Qed.

(** One invalid descriptor: the callback throws; it may leave a Box
    that no set holds, and it touches no Item and no Container. *)
Lemma Item_addBoxes_each_invalid (h : heap) (this : loc) (el : value) :
  ¬ valid_descriptor el →
  ∃ err garbage,
    Item_addBoxes_each this el h
      = (Throw err,
         mkHeap (h_items h) (h_boxes h ++ garbage) (h_containers h)).
Proof.
  intros Hbad. unfold Item_addBoxes_each.
  assert (mkHeap (h_items h) (h_boxes h ++ []) (h_containers h) = h) as Hh
    by (rewrite app_nil_r; by destruct h).
  unfold bind at 1. unfold lift at 1.
  destruct (get_index el 0) as [q|err] eqn:Hq;
    [|exists err, []; by rewrite Hh].
  unfold bind at 1. unfold lift at 1.
  destruct (get_index el 1) as [d|err] eqn:Hd;
    [|exists err, []; by rewrite Hh].
  unfold bind at 1. rewrite new_Box_eq. simpl.
  destruct (isPositiveInt q) eqn:Hqv; simpl; [|by eexists _, [_]].
  destruct (isNonEmptyString d) eqn:Hdv; simpl; [|by eexists _, [_]].
  destruct Hbad. by exists q, d.
Qed.

(** A run of valid descriptors: each Box takes the next location, in
    order, and joins the set. *)
Lemma Item_addBoxes_valid_run (pre : list value) :
  ∀ (h : heap) (this : loc) (it : Item),
  h_items h !! this = Some it →
  (∀ b, b ∈ boxes it → (b < length (h_boxes h))%nat) →
  Forall valid_descriptor pre →
  forEach (Item_addBoxes_each this) pre h
    = (Ok tt,
       mkHeap (<[this := mkItem (collection it) (item_name it) (item_id it)
                           (boxes it
                            ++ seq (length (h_boxes h)) (length pre))]>
                 (h_items h))
              (h_boxes h ++ (box_of this <$> pre))
              (h_containers h)).
Proof.
  induction pre as [|el pre IH]; intros h this it Hit Hin Hpre.
  - simpl. unfold ret. rewrite !app_nil_r.
    rewrite list_insert_id; [by destruct h | by destruct it].
  - apply Forall_cons in Hpre as [Hel Hpre].
    cbn [forEach]. unfold bind.
    rewrite (Item_addBoxes_each_valid h this it el) by done.
    assert (this < length (h_items h))%nat as Hlt
      by by eapply lookup_lt_Some.
    erewrite IH; [| simpl; by apply list_lookup_insert_eq | | done].
    + simpl. rewrite list_insert_insert_eq, length_app. simpl.
      rewrite <- !app_assoc. simpl.
      by rewrite Nat.add_1_r.
    + simpl. intros b [Hb| ->%list_elem_of_singleton]%elem_of_app;
        rewrite length_app; simpl; [apply Hin in Hb|]; lia.
Qed.

(** C10: [addBoxes] is not atomic.  When the descriptors start with [k]
    valid ones followed by an invalid one, the call throws, and the [k]
    Boxes of the valid ones are by then in the Item's box set, after the
    members it had, and stay there. *)
Theorem Item_addBoxes_not_atomic
    (h : heap) (this : loc) (it : Item) (pre : list value) (bad : value)
    (rest : list value) :
  h_items h !! this = Some it →
  (∀ b, b ∈ boxes it → (b < length (h_boxes h))%nat) →
  Forall valid_descriptor pre →
  ¬ valid_descriptor bad →
  ∃ err garbage,
    Item_addBoxes this (pre ++ bad :: rest) h
      = (Throw err,
         mkHeap (<[this := mkItem (collection it) (item_name it) (item_id it)
                             (boxes it
                              ++ seq (length (h_boxes h)) (length pre))]>
                   (h_items h))
                (h_boxes h ++ (box_of this <$> pre) ++ garbage)
                (h_containers h)).
Proof.
  intros Hit Hin Hpre Hbad. unfold Item_addBoxes.
  replace (0 <? length (pre ++ bad :: rest))%nat with true
    by (symmetry; apply Nat.ltb_lt; rewrite length_app; simpl; lia).
  assert (∀ (l1 l2 : list value) (f : value → M unit) h0 h1,
            forEach f l1 h0 = (Ok tt, h1) →
            forEach f (l1 ++ l2) h0 = forEach f l2 h1) as Happ.
  { induction l1 as [|x l1 IH]; intros l2 f h0 h1.
    - simpl. unfold ret. by intros [= ->].
    - simpl. unfold bind. destruct (f x h0) as [[[]|e] h2]; [|done].
      apply IH. }
  erewrite Happ by (by apply Item_addBoxes_valid_run).
  cbn [forEach]. unfold bind.
  edestruct (Item_addBoxes_each_invalid) as (err & garbage & ->); [done|].
  exists err, garbage. simpl. by rewrite <- app_assoc.
Qed.

(** ** Reading the store *)

Lemma mapM_pure {X Y} (f : X → M Y) (g : X → Y) (l : list X) (h : heap) :
  (∀ x, x ∈ l → f x h = (Ok (g x), h)) →
  mapM f l h = (Ok (g <$> l), h).
Proof.
  induction l as [|x l IH]; intros Hf; [done|].
  cbn [mapM]. unfold bind at 1. rewrite Hf by apply list_elem_of_here.
  unfold bind at 1. rewrite IH; [done|].
  intros y Hy. apply Hf. by apply list_elem_of_further.
Qed.

Lemma filterM_pure {X} (f : X → M bool) (g : X → bool) (l : list X)
    (h : heap) :
  (∀ x, x ∈ l → f x h = (Ok (g x), h)) →
  filterM f l h = (Ok (List.filter g l), h).
Proof.
  induction l as [|x l IH]; intros Hf; [done|].
  cbn [filterM]. unfold bind at 1. rewrite Hf by apply list_elem_of_here.
  unfold bind at 1. rewrite IH.
  - simpl. unfold ret. by destruct (g x).
  - intros y Hy. apply Hf. by apply list_elem_of_further.
Qed.

Lemma Item_getItemData_default (h : heap) (this : loc) (it : Item) :
  h_items h !! this = Some it →
  Item_getItemData this VUndefined h
    = (Ok (VObj [("collection", collection it);
                 ("item_name", item_name it);
                 ("item_id", item_id it);
                 ("boxes", VArr (VBox <$> boxes it))]), h).
Proof.
  intros Hit. unfold Item_getItemData. simpl. run.
  unfold Item_getDataAsOBJ. run. by rewrite Hit.
Qed.


(** ** Container.getItemsById *)


(** ** The views of an Item and of a Container *)

(** The format is looked at in lower case only. *)
Lemma Item_getItemData_format (this : loc) (f : string) (h : heap) :
  toLowerCase f = "obj" ∨ toLowerCase f = "json" ∨ toLowerCase f = "table" →
  Item_getItemData this (VStr f) h =
    if String.eqb (toLowerCase f) "obj" then Item_getDataAsOBJ this h
    else if String.eqb (toLowerCase f) "json" then Item_getDataAsJson this h
    else Item_getDataAsTable this h.
Proof.
  intros Hf. unfold Item_getItemData.
  rewrite (format_isNonEmptyString f Hf). simpl. run.
  destruct Hf as [-> | [-> | ->]]; reflexivity.
Qed.

Lemma Container_getContainerData_format (this : loc) (f : string) (h : heap) :
  toLowerCase f = "obj" ∨ toLowerCase f = "json" ∨ toLowerCase f = "table" →
  Container_getContainerData this (VStr f) h =
    if String.eqb (toLowerCase f) "obj" then Container_getDataAsObj this h
    else if String.eqb (toLowerCase f) "json"
         then Container_getDataAsJson this h
    else Container_getDataAsTable this h.
Proof.
  intros Hf. unfold Container_getContainerData.
  rewrite (format_isNonEmptyString f Hf). simpl. run.
  destruct Hf as [-> | [-> | ->]]; reflexivity.
Qed.

(** The JSON and table views of an Item whose boxes are in the store
    are returned, and the store is as it was. *)
Lemma Item_getDataAsJson_returns (h : heap) (this : loc) :
  item_in_store h this →
  ∃ v, Item_getDataAsJson this h = (Ok v, h).
Proof.
  intros (it & Hit & Hbs). unfold Item_getDataAsJson.
  unfold bind at 1. unfold read_Item. rewrite Hit.
  unfold bind at 1.
  erewrite (mapM_pure _
    (λ b, VObj [("qty", default VUndefined (qty <$> h_boxes h !! b));
                ("description",
                 default VUndefined (description <$> h_boxes h !! b))])).
  - eauto.
  - intros b [bx Hbx]%Hbs. run. rewrite Hbx. run. by rewrite Hbx.
Qed.

Lemma Item_getDataAsTable_returns (h : heap) (this : loc) :
  item_in_store h this →
  ∃ rows, Item_getDataAsTable this h = (Ok (VArr rows), h).
Proof.
  intros (it & Hit & Hbs). unfold Item_getDataAsTable.
  unfold bind at 1. unfold read_Item. rewrite Hit.
  unfold bind at 1.
  erewrite (mapM_pure _
    (λ b, VObj [("collection", collection it);
                ("item_name", item_name it);
                ("item_id", item_id it);
                ("box_qty", default VUndefined (qty <$> h_boxes h !! b));
                ("box_description",
                 default VUndefined (description <$> h_boxes h !! b))])).
  - eauto.
  - intros b [bx Hbx]%Hbs. run. rewrite Hbx. run. by rewrite Hbx.
Qed.

(** When each call of [f] returns and leaves the store as it was,
    [mapM f] returns the results in order. *)
Lemma mapM_returns {X Y} (f : X → M Y) (l : list X) (h : heap) :
  (∀ x, x ∈ l → ∃ y, f x h = (Ok y, h)) →
  ∃ ys, mapM f l h = (Ok ys, h) ∧ Forall2 (λ x y, f x h = (Ok y, h)) l ys.
Proof.
  induction l as [|x l IH]; intros Hf.
  - exists []. split; [done | constructor].
  - destruct (Hf x) as [y Hy]; [apply list_elem_of_here|].
    destruct IH as (ys & Hys & Hall).
    { intros z Hz. apply Hf. by apply list_elem_of_further. }
    exists (y :: ys). split; [|by constructor].
    cbn [mapM]. unfold bind at 1. rewrite Hy.
    unfold bind at 1. by rewrite Hys.
Qed.

Lemma Array_flat_arrays (rss : list (list value)) :
  Array_flat (VArr <$> rss) = concat rss.
Proof.
  unfold Array_flat. induction rss as [|rs rss IH]; [done|].
  simpl. f_equal. apply IH.
Qed.

(** C3 (as the code has it): for a format that lower-cases to ["json"],
    [getContainerData] returns the sequence of the [getItemData] results of
    the Items of the container, in the order of the set; for ["table"], the
    concatenation of their row sequences, flat; for ["obj"], the sequence
    of the Item instances themselves. *)
Theorem Container_getContainerData_spec
    (h : heap) (this : loc) (c : Container) (f : string) :
  h_containers h !! this = Some c →
  (∀ l, l ∈ itemList c → item_in_store h l) →
  (toLowerCase f = "obj" →
     Container_getContainerData this (VStr f) h
       = (Ok (VArr (VItem <$> itemList c)), h))
  ∧ (toLowerCase f = "json" →
     ∃ rs,
       Forall2 (λ l r, Item_getItemData l (VStr f) h = (Ok r, h))
               (itemList c) rs
       ∧ Container_getContainerData this (VStr f) h = (Ok (VArr rs), h))
  ∧ (toLowerCase f = "table" →
     ∃ rss,
       Forall2 (λ l rows, Item_getItemData l (VStr f) h = (Ok (VArr rows), h))
               (itemList c) rss
       ∧ Container_getContainerData this (VStr f) h
           = (Ok (VArr (concat rss)), h)).
Proof.
  intros Hc Hitems. split_and!; intros Hf.
  - rewrite Container_getContainerData_format, Hf by auto. simpl.
    unfold Container_getDataAsObj. run. by rewrite Hc.
  - destruct (mapM_returns (λ el, Item_getItemData el (VStr "json"))
                (itemList c) h) as (rs & Hrs & Hall).
    { intros l Hl%Hitems. rewrite Item_getItemData_format by auto.
      by apply Item_getDataAsJson_returns. }
    exists rs. split.
    + eapply Forall2_impl; [exact Hall|]. intros l r. simpl.
      rewrite !Item_getItemData_format by auto. by rewrite Hf.
    + rewrite Container_getContainerData_format, Hf by auto. simpl.
      unfold Container_getDataAsJson, bind at 1. unfold read_Container.
      rewrite Hc. unfold bind at 1. by rewrite Hrs.
  - destruct (mapM_returns (λ el, Item_getItemData el (VStr "table"))
                (itemList c) h) as (rs & Hrs & Hall).
    { intros l Hl%Hitems. rewrite Item_getItemData_format by auto.
      destruct (Item_getDataAsTable_returns h l Hl) as [rows Hrows].
      eauto. }
    assert (∃ rss, rs = VArr <$> rss) as [rss ->].
    { clear Hrs. induction Hall as [|l r ls rs Hl Hall IH].
      - by exists [].
      - destruct IH as [rss ->]; [intros; apply Hitems; by right|].
        rewrite Item_getItemData_format in Hl by auto. simpl in Hl.
        destruct (Item_getDataAsTable_returns h l) as [rows Hrows];
          [apply Hitems; by left|].
        rewrite Hrows in Hl. injection Hl as <-. by exists (rows :: rss). }
    exists rss. split.
    + apply Forall2_fmap_r in Hall.
      eapply Forall2_impl; [exact Hall|]. intros l r. simpl.
      rewrite !Item_getItemData_format by auto. by rewrite Hf.
    + rewrite Container_getContainerData_format, Hf by auto. simpl.
      unfold Container_getDataAsTable, bind at 1. unfold read_Container.
      rewrite Hc. unfold bind at 1. rewrite Hrs. unfold ret.
      by rewrite Array_flat_arrays.
Qed.

(** ** The box set of an Item never empties *)

Lemma NoDup_Set_add (bs : list loc) (x : loc) :
  NoDup bs → NoDup (Set_add bs x).
Proof.
  intros Hnd. unfold Set_add. destruct (Set_has bs x) eqn:Hx; [done|].
  apply Set_has_false in Hx. apply NoDup_app. split_and!; [done| |].
  - intros y Hy ->%list_elem_of_singleton. done.
  - apply NoDup_singleton.
Qed.

Lemma Set_add_size (bs : list loc) (x : loc) :
  (1 ≤ Set_size (Set_add bs x))%nat.
Proof.
  unfold Set_add, Set_size. destruct (Set_has bs x) eqn:Hx.
  - apply Set_has_true in Hx. destruct bs; [by apply elem_of_nil in Hx|].
    simpl. lia.
  - rewrite length_app. simpl. lia.
Qed.

Lemma add_closed_NoDup : add_closed NoDup.
Proof. intros bs x. apply NoDup_Set_add. Qed.

Lemma add_closed_has_a_box :
  add_closed (λ bs, NoDup bs ∧ (1 ≤ Set_size bs)%nat).
Proof.
  intros bs x [Hnd _]. split; [by apply NoDup_Set_add | apply Set_add_size].
Qed.

Section Boxes_satisfy.
Context (φ : list loc → Prop) (l : loc).

Lemma alloc_Box_boxes : preserves (boxes_satisfy φ l) alloc_Box.
Proof. by intros h HP. Qed.

Lemma alloc_Item_boxes : preserves (boxes_satisfy φ l) alloc_Item.
Proof.
  intros h (it & Hit & Hφ). exists it. split; [|done].
  simpl. by apply lookup_app_l_Some.
Qed.

Lemma alloc_Container_boxes : preserves (boxes_satisfy φ l) alloc_Container.
Proof. by intros h HP. Qed.

Lemma write_Box_boxes this f :
  preserves (boxes_satisfy φ l) (write_Box this f).
Proof. by intros h HP. Qed.

Lemma write_Container_boxes this f :
  preserves (boxes_satisfy φ l) (write_Container this f).
Proof. by intros h HP. Qed.

Lemma write_Item_boxes this f :
  (∀ it, φ (boxes it) → φ (boxes (f it))) →
  preserves (boxes_satisfy φ l) (write_Item this f).
Proof.
  intros Hf h (it & Hit & Hφ). simpl. unfold boxes_satisfy. simpl.
  destruct (decide (this = l)) as [->|Hne].
  - exists (f it). rewrite list_lookup_alter_eq, Hit. split; [done|].
    by apply Hf.
  - exists it. by rewrite list_lookup_alter_ne.
Qed.
End Boxes_satisfy.

(** A property of the store that allocation and the writes of Box and
    Item keep is kept by the constructors and methods of Box and Item built
    from them, [removeBox] apart. *)
Section Item_calls.
Context (P : heap → Prop).
Hypothesis alloc_Box_P : preserves P alloc_Box.
Hypothesis write_Box_P : ∀ this f, preserves P (write_Box this f).
Hypothesis alloc_Item_P : preserves P alloc_Item.
Hypothesis write_Item_fields_P : ∀ this f,
  (∀ it, boxes (f it) = boxes it) → preserves P (write_Item this f).
Hypothesis write_Item_add_P : ∀ this box,
  preserves P (write_Item this (λ it,
    mkItem (collection it) (item_name it) (item_id it)
           (Set_add (boxes it) box))).

Hint Resolve alloc_Box_P write_Box_P alloc_Item_P write_Item_add_P
  : preserves.

Lemma Box_set_qty_keeps this e : preserves P (Box_set_qty this e).
Proof. unfold Box_set_qty. preserve. Qed.

Lemma Box_set_description_keeps this e :
  preserves P (Box_set_description this e).
Proof. unfold Box_set_description. preserve. Qed.

Lemma Box_setParentItem_keeps this e :
  preserves P (Box_setParentItem this e).
Proof. unfold Box_setParentItem. preserve. Qed.

Hint Resolve Box_set_qty_keeps Box_set_description_keeps
  Box_setParentItem_keeps : preserves.

Lemma new_Box_keeps q d p : preserves P (new_Box q d p).
Proof. unfold new_Box. preserve. Qed.

Lemma Item_set_collection_keeps this e :
  preserves P (Item_set_collection this e).
Proof. unfold Item_set_collection. preserve. Qed.

Lemma Item_set_item_name_keeps this e :
  preserves P (Item_set_item_name this e).
Proof. unfold Item_set_item_name. preserve. Qed.

Lemma Item_set_item_id_keeps this e :
  preserves P (Item_set_item_id this e).
Proof. unfold Item_set_item_id. preserve. Qed.

Hint Resolve new_Box_keeps Item_set_collection_keeps
  Item_set_item_name_keeps Item_set_item_id_keeps : preserves.

Lemma Item_addBoxes_each_keeps this el :
  preserves P (Item_addBoxes_each this el).
Proof. unfold Item_addBoxes_each. preserve. Qed.

Hint Resolve Item_addBoxes_each_keeps : preserves.

Lemma Item_addBoxes_keeps this e : preserves P (Item_addBoxes this e).
Proof. unfold Item_addBoxes. preserve. Qed.

Hint Resolve Item_addBoxes_keeps : preserves.

Lemma new_Item_keeps c n i bs : preserves P (new_Item c n i bs).
Proof. unfold new_Item. preserve. Qed.
End Item_calls.

(** So it is for what holds of the box set of an Item and [Set.add]
    keeps. *)
Section Calls_keep_boxes.
Context (φ : list loc → Prop) (l : loc) (Hφ : add_closed φ).
Let P := boxes_satisfy φ l.

Lemma write_Item_fields_boxes this f :
  (∀ it, boxes (f it) = boxes it) → preserves P (write_Item this f).
Proof. intros Hf. apply write_Item_boxes. intros it. by rewrite Hf. Qed.

Lemma write_Item_add_boxes this box :
  preserves P (write_Item this (λ it,
    mkItem (collection it) (item_name it) (item_id it)
           (Set_add (boxes it) box))).
Proof. apply write_Item_boxes. intros it. apply Hφ. Qed.

Lemma new_Box_boxes q d p : preserves P (new_Box q d p).
Proof.
  apply new_Box_keeps; [apply alloc_Box_boxes | apply write_Box_boxes].
Qed.

Lemma Box_set_qty_boxes this e : preserves P (Box_set_qty this e).
Proof. apply Box_set_qty_keeps, write_Box_boxes. Qed.

Lemma Box_set_description_boxes this e :
  preserves P (Box_set_description this e).
Proof. apply Box_set_description_keeps, write_Box_boxes. Qed.

Lemma Item_set_collection_boxes this e :
  preserves P (Item_set_collection this e).
Proof. apply Item_set_collection_keeps, write_Item_fields_boxes. Qed.

Lemma Item_set_item_name_boxes this e :
  preserves P (Item_set_item_name this e).
Proof. apply Item_set_item_name_keeps, write_Item_fields_boxes. Qed.

Lemma Item_set_item_id_boxes this e :
  preserves P (Item_set_item_id this e).
Proof. apply Item_set_item_id_keeps, write_Item_fields_boxes. Qed.

Lemma Item_addBoxes_boxes this e : preserves P (Item_addBoxes this e).
Proof.
  apply Item_addBoxes_keeps;
    [apply alloc_Box_boxes | apply write_Box_boxes
    | apply write_Item_add_boxes].
Qed.

Lemma new_Item_boxes c n i bs : preserves P (new_Item c n i bs).
Proof.
  apply new_Item_keeps;
    [apply alloc_Box_boxes | apply write_Box_boxes | apply alloc_Item_boxes
    | apply write_Item_fields_boxes | apply write_Item_add_boxes].
Qed.
End Calls_keep_boxes.

(** And for the Containers of the store, which none of these calls
    writes. *)
Lemma new_Item_containers (cs : list Container) c n i bs :
  preserves (λ h, h_containers h = cs) (new_Item c n i bs).
Proof. apply new_Item_keeps; intros; by intros h Hh. Qed.

(** Calls that only read keep whatever holds of the store. *)
Section Reads.
Context (P : heap → Prop).

Lemma Box_get_qty_reads this : preserves P (Box_get_qty this).
Proof. unfold Box_get_qty. preserve. Qed.

Lemma Box_get_description_reads this :
  preserves P (Box_get_description this).
Proof. unfold Box_get_description. preserve. Qed.

Lemma Box_getParentItem_reads this : preserves P (Box_getParentItem this).
Proof. unfold Box_getParentItem. preserve. Qed.

Hint Resolve Box_get_qty_reads Box_get_description_reads : preserves.

Lemma Item_getItemData_reads this e : preserves P (Item_getItemData this e).
Proof.
  unfold Item_getItemData, Item_getDataAsOBJ, Item_getDataAsJson,
    Item_getDataAsTable.
  preserve.
Qed.

Lemma Item_getBoxesByName_reads this e :
  preserves P (Item_getBoxesByName this e).
Proof. unfold Item_getBoxesByName. preserve. Qed.

Hint Resolve Item_getItemData_reads : preserves.

Lemma Container_getItemsById_reads this e :
  preserves P (Container_getItemsById this e).
Proof. unfold Container_getItemsById. preserve. Qed.

Lemma Container_getContainerData_reads this e :
  preserves P (Container_getContainerData this e).
Proof.
  unfold Container_getContainerData, Container_getDataAsObj,
    Container_getDataAsJson, Container_getDataAsTable.
  preserve.
Qed.
End Reads.

#[local] Hint Resolve Box_get_qty_reads Box_get_description_reads
  Box_getParentItem_reads Item_getItemData_reads Item_getBoxesByName_reads
  Container_getItemsById_reads Container_getContainerData_reads : preserves.

(** [removeBox] deletes under its guard only: from a set of two or more
    without repetition, one member. *)
Lemma Item_removeBox_has_a_box (l this : loc) (e : value) :
  preserves (has_a_box l) (Item_removeBox this e).
Proof.
  intros h (it & Hit & Hnd & Hsz).
  unfold Item_removeBox, bind, read_Item.
  destruct (h_items h !! this) as [it'|] eqn:Hit'; [|by exists it].
  destruct e; try by exists it. simpl.
  destruct (Set_has (boxes it') l0) eqn:Hhas; [|by exists it].
  destruct (Nat.ltb_spec (Set_size (boxes it')) 2) as [Hlt|Hge];
    [by exists it|].
  unfold write_Item, has_a_box, boxes_satisfy. simpl.
  destruct (decide (this = l)) as [->|Hne].
  - rewrite list_lookup_alter_eq, Hit. simpl. eexists. split; [done|].
    simpl. assert (it' = it) as -> by congruence.
    apply Set_has_true in Hhas. split.
    + by apply NoDup_filter.
    + pose proof (Set_delete_size (boxes it) l0 Hnd Hhas). lia.
  - exists it. by rewrite list_lookup_alter_ne.
Qed.

Lemma Box_remove_has_a_box (l this : loc) :
  preserves (has_a_box l) (Box_remove this).
Proof.
  pose proof (Item_removeBox_has_a_box l) as Hrm.
  unfold Box_remove. preserve.
Qed.

(** The Container calls write Containers, and Items through [new Item]
    only. *)
Lemma Container_addItems_each_boxes φ (l this : loc) (e : value) :
  add_closed φ →
  preserves (boxes_satisfy φ l) (Container_addItems_each this e).
Proof.
  intros Hφ. pose proof (new_Item_boxes φ l Hφ) as Hnew.
  pose proof (write_Container_boxes φ l) as Hwrite.
  unfold Container_addItems_each, Container_add. preserve.
Qed.

Lemma Container_addItems_boxes φ (l this : loc) (e : list value) :
  add_closed φ →
  preserves (boxes_satisfy φ l) (Container_addItems this e).
Proof.
  intros Hφ. unfold Container_addItems. apply preserves_forEach.
  intros el _. by apply Container_addItems_each_boxes.
Qed.

Lemma new_Container_boxes φ (l : loc) (e : list value) :
  add_closed φ →
  preserves (boxes_satisfy φ l) (new_Container e).
Proof.
  intros Hφ. pose proof (λ this, Container_addItems_boxes φ l this e Hφ).
  pose proof (alloc_Container_boxes φ l).
  unfold new_Container. preserve.
Qed.

Lemma Container_deleteItem_boxes φ (l this : loc) (e : value) :
  preserves (boxes_satisfy φ l) (Container_deleteItem this e).
Proof.
  pose proof (write_Container_boxes φ l).
  unfold Container_deleteItem. preserve.
Qed.

(** Whatever a caller does, an Item with a box keeps one. *)
Lemma exec_has_a_box (l : loc) (c : call) :
  preserves (has_a_box l) (exec c).
Proof.
  pose proof add_closed_has_a_box as Hφ.
  pose proof (new_Item_boxes _ l Hφ) as Hnew.
  pose proof (Item_addBoxes_boxes _ l Hφ) as Hadd.
  pose proof (new_Box_boxes
                (λ bs, NoDup bs ∧ (1 ≤ Set_size bs)%nat) l) as Hbox.
  pose proof (Box_set_qty_boxes
                (λ bs, NoDup bs ∧ (1 ≤ Set_size bs)%nat) l) as Hqty.
  pose proof (Box_set_description_boxes
                (λ bs, NoDup bs ∧ (1 ≤ Set_size bs)%nat) l) as Hdesc.
  pose proof (Item_set_collection_boxes
                (λ bs, NoDup bs ∧ (1 ≤ Set_size bs)%nat) l) as Hcoll.
  pose proof (Item_set_item_name_boxes
                (λ bs, NoDup bs ∧ (1 ≤ Set_size bs)%nat) l) as Hname.
  pose proof (Item_set_item_id_boxes
                (λ bs, NoDup bs ∧ (1 ≤ Set_size bs)%nat) l) as Hid.
  pose proof (λ e, new_Container_boxes _ l e Hφ) as Hcont.
  pose proof (λ this e, Container_addItems_boxes _ l this e Hφ) as Hitems.
  pose proof (Container_deleteItem_boxes
                (λ bs, NoDup bs ∧ (1 ≤ Set_size bs)%nat) l) as Hdel.
  pose proof (Item_removeBox_has_a_box l) as Hrm.
  pose proof (Box_remove_has_a_box l) as Hbrm.
  unfold has_a_box in *.
  destruct c; simpl; preserve.
Qed.

(** A call that keeps [P] and returns can be followed by one that
    starts from [P], when nothing is asked of a throw. *)
Lemma triple_bind_preserves {X Y} (P : heap → Prop) (m : M X) (k : X → M Y)
    (Q : Y → heap → Prop) :
  preserves P m → (∀ a, triple P (k a) Q (λ _, True)) →
  triple P (bind m k) Q (λ _, True).
Proof.
  intros Hm Hk. eapply triple_bind; [|exact Hk].
  eapply triple_conseq; [exact Hm | auto..].
Qed.

(** The first descriptor that [addBoxes] accepts gives the set its
    first member. *)
Lemma Item_addBoxes_each_first (this : loc) (el : value) :
  triple (boxes_satisfy NoDup this) (Item_addBoxes_each this el)
         (λ _, has_a_box this) (λ _, True).
Proof.
  unfold Item_addBoxes_each.
  apply triple_bind_preserves; [apply preserves_lift|]. intros q.
  apply triple_bind_preserves; [apply preserves_lift|]. intros d.
  apply triple_bind_preserves; [apply new_Box_boxes|]. intros box.
  intros h (it & Hit & Hnd). unfold write_Item, has_a_box, boxes_satisfy.
  simpl. rewrite list_lookup_alter_eq, Hit. simpl. eexists. split; [done|].
  simpl. split; [by apply NoDup_Set_add | apply Set_add_size].
Qed.

Lemma Item_addBoxes_first (this : loc) (e : list value) :
  triple (boxes_satisfy NoDup this) (Item_addBoxes this e)
         (λ _, has_a_box this) (λ _, True).
Proof.
  unfold Item_addBoxes. destruct e as [|el e]; [by apply triple_throw|].
  simpl. eapply triple_bind; [apply Item_addBoxes_each_first|]. intros ?.
  apply (triple_conseq _ (has_a_box this) _ _ (λ _, has_a_box this) _
            (has_a_box this)); [|done..].
  apply preserves_forEach. intros x _.
  apply Item_addBoxes_each_keeps;
    [apply alloc_Box_boxes | apply write_Box_boxes
    | apply write_Item_add_boxes, add_closed_has_a_box].
Qed.

(** The Item that [new Item] returns has a box. *)
Lemma new_Item_has_a_box (c n i : value) (bs : list value) :
  triple (λ _, True) (new_Item c n i bs) (λ l h, has_a_box l h) (λ _, True).
Proof.
  unfold new_Item.
  eapply triple_bind with (R := λ this, boxes_satisfy NoDup this).
  { intros h _. simpl. exists (mkItem VUndefined VUndefined VUndefined []).
    simpl. split; [|constructor].
    rewrite lookup_app_r by done. by rewrite Nat.sub_diag. }
  intros this.
  apply triple_bind_preserves; [apply Item_set_collection_boxes|]. intros ?.
  apply triple_bind_preserves; [apply Item_set_item_name_boxes|]. intros ?.
  apply triple_bind_preserves; [apply Item_set_item_id_boxes|]. intros ?.
  eapply triple_bind; [apply Item_addBoxes_first|]. intros ?.
  by apply triple_ret.
Qed.

(** What [new Item] leaves behind, whatever its outcome: the Containers
    as they were, every Item that had a box with one, and a returned Item
    with one. *)
Lemma new_Item_run (c n i : value) (bs : list value) (h : heap) r h' :
  new_Item c n i bs h = (r, h') →
  h_containers h' = h_containers h
  ∧ (∀ l, has_a_box l h → has_a_box l h')
  ∧ (∀ l, r = Ok l → has_a_box l h').
Proof.
  intros Hrun. split_and!.
  - pose proof (preserves_run _ _ h
      (new_Item_containers (h_containers h) c n i bs) eq_refl) as H.
    by rewrite Hrun in H.
  - intros l Hl.
    pose proof (preserves_run _ _ h
      (new_Item_boxes _ l add_closed_has_a_box c n i bs) Hl) as H.
    by rewrite Hrun in H.
  - intros l Hr. rewrite Hr in Hrun.
    pose proof (new_Item_has_a_box c n i bs h I) as H.
    by rewrite Hrun in H.
Qed.

(** ** Containers hold Items with a box *)

Lemma elem_of_Set_add (s : list loc) (x y : loc) :
  y ∈ Set_add s x → y ∈ s ∨ y = x.
Proof.
  unfold Set_add. destruct (Set_has s x); [by left|].
  intros [?| ->%list_elem_of_singleton]%elem_of_app; auto.
Qed.

Lemma Container_add_accounted (this : loc) (old : list loc) (e : list value)
    (item : loc) (h : heap) :
  items_accounted this old e h →
  VItem item ∈ e ∨ has_a_box item h →
  items_accounted this old e (Container_add this item h).2.
Proof.
  intros Hacc Hitem c l. unfold Container_add, write_Container. simpl.
  rewrite list_lookup_alter_eq.
  destruct (h_containers h !! this) as [c0|] eqn:Hc0; [|done].
  simpl. intros [= <-]. simpl. intros [Hl | ->]%elem_of_Set_add.
  - destruct (Hacc c0 l Hc0 Hl) as [?|[?|?]]; auto.
  - destruct Hitem; auto.
Qed.

Lemma Container_addItems_each_accounted (this : loc) (old : list loc)
    (e : list value) (x : value) :
  x ∈ e →
  preserves (items_accounted this old e) (Container_addItems_each this x).
Proof.
  intros Hx h Hacc.
  assert (∀ item, VItem item ∈ e ∨ has_a_box item h →
            match Container_add this item h with
            | (Ok _, h') | (Throw _, h') => items_accounted this old e h'
            end) as Hadd.
  { intros item Hitem. by apply Container_add_accounted. }
  assert (let (r, h') :=
            (let! c := lift (get_field x "collection") in
             let! n := lift (get_field x "item_name") in
             let! i := lift (get_field x "item_id") in
             let! b := lift (get_field x "boxes") in
             let! item := new_Item c n i [b] in
             Container_add this item) h in
          match r with
          | Ok _ | Throw _ => items_accounted this old e h'
          end) as Hraw.
  { unfold bind at 1. unfold lift at 1.
    destruct (get_field x "collection") as [c|]; [|done].
    unfold bind at 1. unfold lift at 1.
    destruct (get_field x "item_name") as [n|]; [|done].
    unfold bind at 1. unfold lift at 1.
    destruct (get_field x "item_id") as [i|]; [|done].
    unfold bind at 1. unfold lift at 1.
    destruct (get_field x "boxes") as [b|]; [|done].
    unfold bind at 1.
    destruct (new_Item c n i [b] h) as [r h1] eqn:Hnew.
    apply new_Item_run in Hnew as (Hcs & Hkeep & Hret).
    assert (items_accounted this old e h1) as Hacc1.
    { intros c0 l. rewrite Hcs. intros Hc0 Hl.
      destruct (Hacc c0 l Hc0 Hl) as [?|[?|?]]; auto. }
    destruct r as [item|err]; [|done].
    pose proof (Container_add_accounted this old e item h1 Hacc1) as H.
    destruct (Container_add this item h1) as [[[]|err] h2]; apply H; auto. }
  unfold Container_addItems_each.
  destruct x; try exact Hraw.
  specialize (Hadd l (or_introl Hx)).
  by destruct (Container_add this l h) as [[[]|err] h'].
Qed.

Lemma Container_addItems_accounted (this : loc) (old : list loc)
    (e : list value) :
  preserves (items_accounted this old e) (Container_addItems this e).
Proof.
  unfold Container_addItems. apply preserves_forEach.
  intros x Hx. by apply Container_addItems_each_accounted.
Qed.

(** C1: every Item a caller can hold, be it returned by the Item
    constructor or built by a Container from a raw descriptor, and
    whatever calls were made since, [addBoxes], [removeBox] and
    [Box.remove] among them, is in the store with a box set, without
    repetition, of size one at least. *)
Theorem Item_always_has_a_box (h : heap) (l : loc) :
  reachable h l →
  ∃ it, h_items h !! l = Some it
        ∧ NoDup (boxes it)
        ∧ (1 ≤ Set_size (boxes it))%nat.
Proof.
  intros Hreach. change (has_a_box l h).
  induction Hreach as
    [h c n i bs l h' Hnew
    |h e this h' c l Hnew Hc Hl He
    |h this e r h' c c' l Hadd Hc Hc' Hl Hold He
    |h l c Hreach IH].
  - by apply new_Item_run in Hnew as (_ & _ & Hret); apply Hret.
  - unfold new_Container, bind in Hnew. simpl in Hnew.
    set (h1 := mkHeap (h_items h) (h_boxes h)
                      (h_containers h ++ [mkContainer []])) in *.
    set (this0 := length (h_containers h)) in *.
    assert (items_accounted this0 [] e h1) as Hacc.
    { intros c0 l0. unfold h1, this0. simpl.
      rewrite lookup_app_r by done. rewrite Nat.sub_diag. simpl.
      intros [= <-]. simpl. by intros ?%elem_of_nil. }
    pose proof (preserves_run _ _ h1
      (Container_addItems_accounted this0 [] e) Hacc) as Hrun.
    destruct (Container_addItems this0 e h1) as [[[]|err] h2];
      [|discriminate].
    injection Hnew as <- <-. simpl in Hrun.
    destruct (Hrun c l Hc Hl) as [?%elem_of_nil|[?|?]]; done.
  - assert (items_accounted this (itemList c) e h) as Hacc.
    { intros c0 l0 Hc0. assert (c0 = c) as -> by congruence. auto. }
    pose proof (preserves_run _ _ h
      (Container_addItems_accounted this (itemList c) e) Hacc) as Hrun.
    rewrite Hadd in Hrun. simpl in Hrun.
    destruct (Hrun c' l Hc' Hl) as [?|[?|?]]; done.
  - by apply preserves_run; [apply exec_has_a_box|].
Qed.

(** ** Containers from raw descriptors *)

(** [new Item] on valid scalar fields: the Item is allocated with them,
    trimmed, and [addBoxes] runs on the descriptors. *)
Lemma new_Item_valid_fields (sc sn : string) (z : Z) (bs : list value)
    (h : heap) :
  trim sc ≠ "" → trim sn ≠ "" → 0 < z →
  new_Item (VStr sc) (VStr sn) (num z) bs h
    = (Item_addBoxes (length (h_items h)) bs;; ret (length (h_items h)))
        (mkHeap (h_items h
                 ++ [mkItem (VStr (trim sc)) (VStr (trim sn)) (num z) []])
                (h_boxes h) (h_containers h)).
Proof.
  intros Hc Hn Hz. unfold new_Item, Item_set_collection, Item_set_item_name,
    Item_set_item_id.
  rewrite (proj2 (isNonEmptyString_true (VStr sc))) by eauto.
  rewrite (proj2 (isNonEmptyString_true (VStr sn))) by eauto.
  rewrite (proj2 (isPositiveInt_true (num z))) by (unfold num; eauto).
  unfold bind at 1. unfold alloc_Item at 1.
  unfold bind at 1. unfold bind at 1. unfold lift at 1, write_Item at 1.
  cbn [method_trim h_items h_boxes h_containers]. rewrite alter_snoc.
  unfold bind at 1. unfold bind at 1. unfold lift at 1, write_Item at 1.
  cbn [method_trim h_items h_boxes h_containers]. rewrite alter_snoc.
  unfold bind at 1. unfold write_Item at 1.
  cbn [h_items h_boxes h_containers]. rewrite alter_snoc.
  reflexivity.
Qed.

(** A raw descriptor whose [boxes] is an array of pairs is refused: the
    array is taken for one descriptor, and its first pair for a
    quantity. *)
Lemma new_Container_boxes_array (sc sn : string) (z : Z)
    (p ps : list value) (h : heap) :
  trim sc ≠ "" → trim sn ≠ "" → 0 < z →
  ∃ h', new_Container
          [raw_descriptor (VStr sc) (VStr sn) (num z) (VArr (VArr p :: ps))] h
        = (Throw (InvalidArgument "box.qty" (VArr p)), h').
Proof.
  intros Hc Hn Hz. unfold new_Container, bind at 1. unfold alloc_Container.
  unfold bind at 1. unfold Container_addItems. cbn [forEach].
  unfold bind at 1. unfold Container_addItems_each, raw_descriptor.
  run. rewrite new_Item_valid_fields by done.
  unfold Item_addBoxes. cbn [length Nat.ltb Nat.leb forEach].
  unfold bind at 1. unfold bind at 1. unfold Item_addBoxes_each.
  unfold bind at 1. unfold lift at 1. cbn [get_index].
  unfold bind at 1. unfold lift at 1. cbn [get_index].
  unfold bind at 1. rewrite new_Box_eq. simpl. eauto.
Qed.

Lemma insert_snoc {X} (l : list X) (x y : X) :
  <[length l := y]> (l ++ [x]) = l ++ [y].
Proof. by rewrite list_insert_alter, alter_snoc. Qed.

Lemma lookup_snoc {X} (l : list X) (x : X) : (l ++ [x]) !! length l = Some x.
Proof. rewrite lookup_app_r by done. by rewrite Nat.sub_diag. Qed.

(** [new Item] on the fields of a valid descriptor whose [boxes] is one
    pair: the Item and its Box take the next locations. *)
Lemma new_Item_one_box (d : one_box_descriptor) (h : heap) :
  valid_one_box d →
  new_Item (VStr (d_collection d)) (VStr (d_item_name d)) (num (d_item_id d))
           [VArr [num (d_qty d); VStr (d_description d)]] h
    = (Ok (length (h_items h)),
       mkHeap (h_items h ++ [item_of d (length (h_boxes h))])
              (h_boxes h
               ++ [mkBox (num (d_qty d)) (VStr (d_description d))
                         (VItem (length (h_items h)))])
              (h_containers h)).
Proof.
  intros (Hc & Hn & Hid & Hq & Hd).
  rewrite new_Item_valid_fields by done.
  unfold Item_addBoxes. cbn [length Nat.ltb Nat.leb].
  unfold bind at 1.
  rewrite (Item_addBoxes_valid_run [_] _ _
             (mkItem (VStr (trim (d_collection d)))
                     (VStr (trim (d_item_name d))) (num (d_item_id d)) [])).
  - cbn [h_items h_boxes h_containers collection item_name item_id boxes
         length fmap list_fmap seq app].
    rewrite insert_snoc. reflexivity.
  - apply lookup_snoc.
  - simpl. by intros b ?%elem_of_nil.
  - apply Forall_singleton.
    exists (num (d_qty d)), (VStr (d_description d)). split_and!; try done.
    + apply isPositiveInt_true. unfold num. eauto.
    + apply isNonEmptyString_true. eauto.
Qed.

(** On a raw descriptor the callback of [addItems] reads the four
    fields, builds the Item and adds it. *)
Lemma Container_addItems_each_raw (this : loc) (c n i b : value) (h : heap) :
  Container_addItems_each this (raw_descriptor c n i b) h
    = (let! item := new_Item c n i [b] in Container_add this item) h.
Proof. reflexivity. Qed.

(** A run of such descriptors through [addItems]: the Items take the
    next locations in order, each with its one Box, and join the
    container. *)
Lemma Container_addItems_one_box_run (ds : list one_box_descriptor) :
  ∀ (h : heap) (this : loc) (cur : list loc),
  h_containers h !! this = Some (mkContainer cur) →
  (∀ l, l ∈ cur → (l < length (h_items h))%nat) →
  Forall valid_one_box ds →
  forEach (Container_addItems_each this) (raw_of <$> ds) h
    = (Ok tt,
       mkHeap
         (h_items h
          ++ imap (λ k d, item_of d (length (h_boxes h) + k)) ds)
         (h_boxes h
          ++ imap (λ k d, mkBox (num (d_qty d)) (VStr (d_description d))
                               (VItem (length (h_items h) + k))) ds)
         (<[this := mkContainer
                      (cur ++ seq (length (h_items h)) (length ds))]>
            (h_containers h))).
Proof.
  induction ds as [|d ds IH]; intros h this cur Hcur Hlt Hds.
  - simpl. unfold ret. rewrite !app_nil_r.
    rewrite list_insert_id by done. by destruct h.
  - apply Forall_cons in Hds as [Hd Hds].
    cbn [fmap list_fmap forEach]. unfold bind at 1.
    unfold raw_of at 1. rewrite Container_addItems_each_raw.
    unfold bind at 1. rewrite new_Item_one_box by done.
    unfold Container_add, write_Container.
    cbn [h_items h_boxes h_containers].
    rewrite (alter_lookup _ _ _ _ Hcur). cbn [itemList].
    rewrite Set_add_fresh by (intros ?%Hlt; lia).
    assert (this < length (h_containers h))%nat as Hthis
      by by eapply lookup_lt_Some.
    rewrite (IH _ this (cur ++ [length (h_items h)])); [| | |done].
    + cbn [h_items h_boxes h_containers imap].
      rewrite list_insert_insert_eq, !length_app. cbn [length].
      rewrite <- !app_assoc. cbn [app]. rewrite !Nat.add_0_r.
      f_equal. f_equal; [| |].
      * f_equal. f_equal. apply imap_ext. intros k x _. simpl.
        f_equal. lia.
      * f_equal. f_equal. apply imap_ext. intros k x _. simpl.
        do 2 f_equal. lia.
      * do 3 f_equal. by rewrite Nat.add_1_r.
    + cbn [h_containers]. by apply list_lookup_insert_eq.
    + cbn [h_items]. intros l. rewrite length_app. cbn [length].
      intros [Hl%Hlt | ->%list_elem_of_singleton]%elem_of_app; lia.
Qed.

(** The round trip holds for raw descriptors whose [boxes] is one pair:
    from [N] valid ones the Container is built, and its ["obj"] view is the
    [N] Items built from them, in order, each with the [collection] and
    [item_name] of its descriptor, trimmed, and its [item_id]. *)
Lemma Container_round_trip_one_box (ds : list one_box_descriptor) (h : heap) :
  Forall valid_one_box ds →
  ∃ h',
    new_Container (raw_of <$> ds) h = (Ok (length (h_containers h)), h')
    ∧ Container_getContainerData (length (h_containers h)) (VStr "obj") h'
        = (Ok (VArr (VItem <$> seq (length (h_items h)) (length ds))), h')
    ∧ ∀ k d, ds !! k = Some d →
        ∃ it, h_items h' !! (length (h_items h) + k)%nat = Some it
              ∧ collection it = VStr (trim (d_collection d))
              ∧ item_name it = VStr (trim (d_item_name d))
              ∧ item_id it = num (d_item_id d).
Proof.
  intros Hds. eexists. split_and!.
  - unfold new_Container, bind at 1. unfold alloc_Container.
    unfold bind at 1. unfold Container_addItems.
    erewrite Container_addItems_one_box_run; [reflexivity | | | done].
    + cbn [h_containers]. apply lookup_snoc.
    + by intros l ?%elem_of_nil.
  - cbn [h_items h_boxes h_containers app].
    unfold Container_getContainerData. simpl. run.
    unfold Container_getDataAsObj. run.
    by rewrite insert_snoc, lookup_snoc.
  - intros k d Hk. cbn [h_items].
    exists (item_of d (length (h_boxes h) + k)).
    split; [|done].
    rewrite lookup_app_r by lia.
    replace (length (h_items h) + k - length (h_items h))%nat with k by lia.
    by rewrite list_lookup_imap, Hk.
Qed.

(** C4 (the code on a descriptor the claim covers): a raw descriptor with
    valid scalar fields whose [boxes] is an array of [[qty, description]]
    pairs does not make a Container.  The constructor throws the
    invalid-argument error of the Box quantity, on the first pair, so
    there is no ["obj"] view with an entry for the descriptor. *)
Theorem Container_round_trip_boxes_array
    (sc sn : string) (z : Z) (p ps : list value) (h : heap) :
  trim sc ≠ "" → trim sn ≠ "" → 0 < z →
  ∃ h', new_Container
          [raw_descriptor (VStr sc) (VStr sn) (num z) (VArr (VArr p :: ps))] h
        = (Throw (InvalidArgument "box.qty" (VArr p)), h')
        ∧ is_ValidationError (InvalidArgument "box.qty" (VArr p)) = true.
Proof.
  intros Hc Hn Hz.
  destruct (new_Container_boxes_array sc sn z p ps h Hc Hn Hz) as [h' Hh'].
  by exists h'.
Qed.

(** ** Stores stay well formed *)

Lemma box_ok_boxes_app (h h' : heap) (l b : loc) (extra : list Box) :
  h_boxes h' = h_boxes h ++ extra → box_ok h l b → box_ok h' l b.
Proof.
  intros Hb (bx & Hbx & Hrest). exists bx. split; [|done].
  rewrite Hb. by apply lookup_app_l_Some.
Qed.

(** Boxes appended to the store, no set changed. *)
Lemma wf_store_boxes_app (h : heap) (extra : list Box) :
  wf_store h →
  wf_store (mkHeap (h_items h) (h_boxes h ++ extra) (h_containers h)).
Proof.
  intros [HI HC]. split; [|exact HC].
  intros l it Hit. destruct (HI l it Hit) as [Hnd Hb]. split; [done|].
  intros b Hbin. by eapply box_ok_boxes_app; [|apply Hb].
Qed.

Lemma is_Some_lookup_alter {X} (f : X → X) (l : list X) (i j : nat) :
  is_Some (alter f i l !! j) ↔ is_Some (l !! j).
Proof. by rewrite !lookup_lt_is_Some, length_alter. Qed.

(** An Item rewritten with a box set that is still without repetition
    and whose members are its Boxes. *)
Lemma wf_store_write_Item (h : heap) (this : loc) (f : Item → Item) :
  wf_store h →
  (∀ it, h_items h !! this = Some it →
     NoDup (boxes (f it)) ∧ ∀ b, b ∈ boxes (f it) → box_ok h this b) →
  wf_store (mkHeap (alter f this (h_items h)) (h_boxes h) (h_containers h)).
Proof.
  intros [HI HC] Hf. split.
  - intros l it'. simpl. destruct (decide (this = l)) as [->|Hne].
    + rewrite list_lookup_alter_eq.
      destruct (h_items h !! l) as [it|] eqn:Hit; [|done].
      simpl. intros [= <-]. destruct (Hf it eq_refl) as [Hnd Hb].
      split; [done|]. intros b Hbin. by apply Hb.
    + rewrite list_lookup_alter_ne by done. intros Hit.
      destruct (HI l it' Hit) as [Hnd Hb]. split; [done|].
      intros b Hbin. by apply Hb.
  - intros c ct Hct. simpl in *. destruct (HC c ct Hct) as [Hnd Hl].
    split; [done|]. intros l Hlin. apply is_Some_lookup_alter. by apply Hl.
Qed.

Lemma alloc_Box_wf : preserves wf_store alloc_Box.
Proof. intros h Hwf. by apply wf_store_boxes_app. Qed.

Lemma alloc_Item_wf : preserves wf_store alloc_Item.
Proof.
  intros h [HI HC]. split; simpl.
  - intros l it [Hit|[_ Hit]]%lookup_app_Some; [by apply HI|].
    apply list_lookup_singleton_Some in Hit as [_ <-]. simpl.
    split; [constructor | by intros b ?%elem_of_nil].
  - intros c ct Hct. destruct (HC c ct Hct) as [Hnd Hl]. split; [done|].
    intros l [it Hit]%Hl. exists it. by apply lookup_app_l_Some.
Qed.

Lemma alloc_Container_wf : preserves wf_store alloc_Container.
Proof.
  intros h [HI HC]. split; simpl; [exact HI|].
  intros c ct [Hct|[_ Hct]]%lookup_app_Some; [by apply (HC c)|].
  apply list_lookup_singleton_Some in Hct as [_ <-]. simpl.
  split; [constructor | by intros l ?%elem_of_nil].
Qed.

Lemma write_Item_fields_wf (this : loc) (f : Item → Item) :
  (∀ it, boxes (f it) = boxes it) → preserves wf_store (write_Item this f).
Proof.
  intros Hf h Hwf. apply wf_store_write_Item; [done|].
  intros it Hit. rewrite Hf. by apply (proj1 Hwf).
Qed.

(** A Box rewritten with its parent kept and valid fields. *)
Lemma wf_store_write_Box (h : heap) (this : loc) (f : Box → Box) :
  wf_store h →
  (∀ bx, parentItem (f bx) = parentItem bx) →
  (∀ bx, isPositiveInt (qty bx) = true → isPositiveInt (qty (f bx)) = true) →
  (∀ bx, isNonEmptyString (description bx) = true →
         isNonEmptyString (description (f bx)) = true) →
  wf_store (mkHeap (h_items h) (alter f this (h_boxes h)) (h_containers h)).
Proof.
  intros [HI HC] Hp Hq Hd. split; [|exact HC].
  intros l it Hit. destruct (HI l it Hit) as [Hnd Hb]. split; [done|].
  intros b (bx & Hbx & Hpar & Hqty & Hdesc)%Hb. unfold box_ok. simpl.
  destruct (decide (this = b)) as [->|Hne].
  - exists (f bx). rewrite list_lookup_alter_eq, Hbx. split; [done|].
    rewrite Hp. auto.
  - exists bx. by rewrite list_lookup_alter_ne.
Qed.

Lemma Box_set_qty_wf (this : loc) (e : value) :
  preserves wf_store (Box_set_qty this e).
Proof.
  intros h Hwf. unfold Box_set_qty.
  destruct (isPositiveInt e) eqn:He; [|done].
  by apply wf_store_write_Box.
Qed.

Lemma Box_set_description_wf (this : loc) (e : value) :
  preserves wf_store (Box_set_description this e).
Proof.
  intros h Hwf. unfold Box_set_description.
  destruct (isNonEmptyString e) eqn:He; [|done].
  by apply wf_store_write_Box.
Qed.

Lemma new_Box_wf (q d p : value) : preserves wf_store (new_Box q d p).
Proof.
  intros h Hwf. rewrite new_Box_eq. simpl.
  destruct (isPositiveInt q); simpl; [|by apply wf_store_boxes_app].
  destruct (isNonEmptyString d); simpl; [|by apply wf_store_boxes_app].
  destruct (instanceof_Item p); simpl; by apply wf_store_boxes_app.
Qed.

(** In a well-formed store the next Box location is in no set. *)
Lemma wf_store_fresh_box (h : heap) (l : loc) (it : Item) :
  wf_store h → h_items h !! l = Some it → length (h_boxes h) ∉ boxes it.
Proof.
  intros [HI _] Hit Hin. destruct (HI l it Hit) as [_ Hb].
  destruct (Hb _ Hin) as (bx & Hbx%lookup_lt_Some & _). lia.
Qed.

Lemma Item_addBoxes_each_wf (this : loc) (el : value) :
  preserves wf_store (Item_addBoxes_each this el).
Proof.
  intros h Hwf. unfold Item_addBoxes_each.
  unfold bind at 1. unfold lift at 1.
  destruct (get_index el 0) as [q|err]; [|done].
  unfold bind at 1. unfold lift at 1.
  destruct (get_index el 1) as [d|err]; [|done].
  unfold bind at 1. rewrite new_Box_eq. simpl.
  destruct (isPositiveInt q) eqn:Hq; simpl; [|by apply wf_store_boxes_app].
  destruct (isNonEmptyString d) eqn:Hd; simpl;
    [|by apply wf_store_boxes_app].
  unfold write_Item. simpl.
  apply (wf_store_write_Item
           (mkHeap (h_items h)
                   (h_boxes h ++ [mkBox q d (VItem this)]) (h_containers h)));
    [by apply wf_store_boxes_app|].
  simpl. intros it Hit. destruct (proj1 Hwf this it Hit) as [Hnd Hb].
  split; [by apply NoDup_Set_add|].
  intros b [Hbin| ->]%elem_of_Set_add.
  - eapply box_ok_boxes_app; [|by apply Hb]. reflexivity.
  - exists (mkBox q d (VItem this)). simpl. split_and!; try done.
    apply lookup_snoc.
Qed.

Lemma Item_removeBox_wf (this : loc) (e : value) :
  preserves wf_store (Item_removeBox this e).
Proof.
  intros h Hwf. unfold Item_removeBox, bind, read_Item.
  destruct (h_items h !! this) as [it|] eqn:Hit; [|done].
  destruct e; try done. simpl.
  destruct (Set_has (boxes it) l); [|done].
  destruct (Set_size (boxes it) <? 2)%nat; [done|].
  unfold write_Item. apply wf_store_write_Item; [done|].
  simpl. intros it' Hit'. destruct (proj1 Hwf this it' Hit') as [Hnd Hb].
  split; [by apply NoDup_filter|].
  intros b [Hbin _]%elem_of_Set_delete. by apply Hb.
Qed.

Lemma Box_remove_wf (this : loc) : preserves wf_store (Box_remove this).
Proof.
  pose proof Item_removeBox_wf. unfold Box_remove. preserve.
Qed.

Lemma Item_addBoxes_wf (this : loc) (e : list value) :
  preserves wf_store (Item_addBoxes this e).
Proof.
  pose proof Item_addBoxes_each_wf. unfold Item_addBoxes. preserve.
Qed.

Lemma new_Item_wf (c n i : value) (bs : list value) :
  preserves wf_store (new_Item c n i bs).
Proof.
  pose proof Item_addBoxes_wf. pose proof alloc_Item_wf.
  pose proof write_Item_fields_wf.
  unfold new_Item, Item_set_collection, Item_set_item_name, Item_set_item_id.
  preserve.
Qed.

Lemma Item_set_collection_wf (this : loc) (e : value) :
  preserves wf_store (Item_set_collection this e).
Proof.
  pose proof write_Item_fields_wf. unfold Item_set_collection. preserve.
Qed.

Lemma Item_set_item_name_wf (this : loc) (e : value) :
  preserves wf_store (Item_set_item_name this e).
Proof.
  pose proof write_Item_fields_wf. unfold Item_set_item_name. preserve.
Qed.

Lemma Item_set_item_id_wf (this : loc) (e : value) :
  preserves wf_store (Item_set_item_id this e).
Proof.
  pose proof write_Item_fields_wf. unfold Item_set_item_id. preserve.
Qed.

(** The Items of the store stay in it. *)
Lemma new_Item_keeps_items (l : loc) (c n i : value) (bs : list value) :
  preserves (λ h, is_Some (h_items h !! l)) (new_Item c n i bs).
Proof.
  apply new_Item_keeps.
  - by intros h Hl.
  - by intros this f h Hl.
  - intros h [it Hit]. exists it. by apply lookup_app_l_Some.
  - intros this f _ h Hl. by apply is_Some_lookup_alter.
  - intros this box h Hl. by apply is_Some_lookup_alter.
Qed.

(** What [new Item] leaves behind in a well-formed store, whatever its
    outcome. *)
Lemma new_Item_run_wf (c n i : value) (bs : list value) (h : heap) r h' :
  new_Item c n i bs h = (r, h') →
  wf_store h →
  wf_store h'
  ∧ h_containers h' = h_containers h
  ∧ (∀ l, is_Some (h_items h !! l) → is_Some (h_items h' !! l))
  ∧ (∀ l, r = Ok l → is_Some (h_items h' !! l)).
Proof.
  intros Hrun Hwf. split_and!.
  - pose proof (preserves_run _ _ h (new_Item_wf c n i bs) Hwf) as H.
    by rewrite Hrun in H.
  - by apply new_Item_run in Hrun as (Hcs & _).
  - intros l Hl.
    pose proof (preserves_run _ _ h (new_Item_keeps_items l c n i bs) Hl)
      as H.
    by rewrite Hrun in H.
  - intros l Hr. apply new_Item_run in Hrun as (_ & _ & Hret).
    destruct (Hret l Hr) as (it & Hit & _). by exists it.
Qed.

Lemma Container_add_wf (this item : loc) (h : heap) :
  wf_store h → is_Some (h_items h !! item) →
  wf_store (Container_add this item h).2.
Proof.
  intros [HI HC] Hitem. split; [exact HI|].
  intros c ct. unfold Container_add, write_Container. simpl.
  destruct (decide (this = c)) as [->|Hne].
  - rewrite list_lookup_alter_eq.
    destruct (h_containers h !! c) as [c0|] eqn:Hc0; [|done].
    simpl. intros [= <-]. simpl. destruct (HC c c0 Hc0) as [Hnd Hl].
    split; [by apply NoDup_Set_add|].
    intros l [Hlin| ->]%elem_of_Set_add; [by apply Hl | done].
  - rewrite list_lookup_alter_ne by done. apply HC.
Qed.

Lemma Container_addItems_each_wf (this : loc) (e : list value) (x : value) :
  x ∈ e → preserves (wf_with e) (Container_addItems_each this x).
Proof.
  intros Hx h [Hwf Hrefs].
  assert (∀ item, is_Some (h_items h !! item) →
            match Container_add this item h with
            | (Ok _, h') | (Throw _, h') => wf_with e h'
            end) as Hadd.
  { intros item Hitem. split; [by apply Container_add_wf | exact Hrefs]. }
  assert (let (r, h') :=
            (let! c := lift (get_field x "collection") in
             let! n := lift (get_field x "item_name") in
             let! i := lift (get_field x "item_id") in
             let! b := lift (get_field x "boxes") in
             let! item := new_Item c n i [b] in
             Container_add this item) h in
          match r with
          | Ok _ | Throw _ => wf_with e h'
          end) as Hraw.
  { unfold bind at 1. unfold lift at 1.
    destruct (get_field x "collection") as [c|]; [|done].
    unfold bind at 1. unfold lift at 1.
    destruct (get_field x "item_name") as [n|]; [|done].
    unfold bind at 1. unfold lift at 1.
    destruct (get_field x "item_id") as [i|]; [|done].
    unfold bind at 1. unfold lift at 1.
    destruct (get_field x "boxes") as [b|]; [|done].
    unfold bind at 1.
    destruct (new_Item c n i [b] h) as [r h1] eqn:Hnew.
    apply new_Item_run_wf in Hnew as (Hwf1 & Hcs & Hkeep & Hret); [|done].
    destruct r as [item|err]; [|split; auto].
    split; [apply Container_add_wf; auto|].
    intros l Hl. simpl. auto. }
  unfold Container_addItems_each.
  destruct x; try exact Hraw.
  specialize (Hadd l (Hrefs l Hx)).
  by destruct (Container_add this l h) as [[[]|err] h'].
Qed.

Lemma Container_addItems_wf (this : loc) (e : list value) :
  preserves (wf_with e) (Container_addItems this e).
Proof.
  unfold Container_addItems. apply preserves_forEach.
  intros x Hx. by apply Container_addItems_each_wf.
Qed.

Lemma new_Container_wf (e : list value) :
  preserves (wf_with e) (new_Container e).
Proof.
  pose proof (λ this, Container_addItems_wf this e).
  unfold new_Container. preserve.
  intros h [Hwf Hrefs]. split; [by apply alloc_Container_wf | exact Hrefs].
Qed.

Lemma Container_deleteItem_wf (this : loc) (e : value) :
  preserves wf_store (Container_deleteItem this e).
Proof.
  intros h Hwf. unfold Container_deleteItem, bind, read_Container.
  destruct (h_containers h !! this) as [c|] eqn:Hc; [|done].
  destruct e; try done. simpl.
  destruct (Set_has (itemList c) l); [|done].
  destruct Hwf as [HI HC]. split; [exact HI|].
  intros c' ct. unfold write_Container. simpl.
  destruct (decide (this = c')) as [->|Hne].
  - rewrite list_lookup_alter_eq, Hc. simpl. intros [= <-]. simpl.
    destruct (HC c' c Hc) as [Hnd Hl]. split; [by apply NoDup_filter|].
    intros l' [Hlin _]%elem_of_Set_delete. by apply Hl.
  - rewrite list_lookup_alter_ne by done. apply HC.
Qed.

(** A call whose Item instances are in the store keeps the store well
    formed, whatever its outcome. *)
Lemma exec_wf (c : call) (h : heap) :
  wf_store h → valid_refs h c → wf_store (exec c h).2.
Proof.
  intros Hwf Hrefs.
  pose proof new_Box_wf. pose proof Box_set_qty_wf.
  pose proof Box_set_description_wf. pose proof Box_remove_wf.
  pose proof new_Item_wf. pose proof Item_set_collection_wf.
  pose proof Item_set_item_name_wf. pose proof Item_set_item_id_wf.
  pose proof Item_addBoxes_wf. pose proof Item_removeBox_wf.
  pose proof Container_deleteItem_wf.
  pose proof (Box_get_qty_reads wf_store).
  pose proof (Box_get_description_reads wf_store).
  pose proof (Box_getParentItem_reads wf_store).
  pose proof (Item_getItemData_reads wf_store).
  pose proof (Item_getBoxesByName_reads wf_store).
  pose proof (Container_getItemsById_reads wf_store).
  pose proof (Container_getContainerData_reads wf_store).
  destruct c; simpl in Hrefs |- *;
    try (apply preserves_run; [solve [preserve] | done]).
  - apply (preserves_run (wf_with e)); [|done].
    pose proof (new_Container_wf e). preserve.
  - by apply (preserves_run (wf_with e)); [apply Container_addItems_wf|].
Qed.

Lemma store_is_wf (h : heap) : store h → wf_store h.
Proof.
  induction 1 as [|h c Hstore IH Hrefs].
  - split; intros l x Hx; simpl in Hx; by rewrite lookup_nil in Hx.
  - by apply exec_wf.
Qed.

(** X1: the store of a program is always well formed.  Every box set
    is without repetition and each of its Boxes is in the store, has the
    Item as its parent, a positive integer quantity and a description that
    is not blank; every Container holds, without repetition, Items of the
    store. *)
Theorem store_wf (h : heap) :
  store h →
  (∀ l it, h_items h !! l = Some it →
     NoDup (boxes it)
     ∧ ∀ b, b ∈ boxes it →
         ∃ bx, h_boxes h !! b = Some bx
               ∧ parentItem bx = VItem l
               ∧ (∃ z, qty bx = VNum (Integer z) ∧ 0 < z)
               ∧ (∃ s, description bx = VStr s ∧ trim s ≠ ""))
  ∧ (∀ c ct, h_containers h !! c = Some ct →
     NoDup (itemList ct) ∧ ∀ l, l ∈ itemList ct → is_Some (h_items h !! l)).
Proof.
  intros [HI HC]%store_is_wf. split; [|exact HC].
  intros l it Hit. destruct (HI l it Hit) as [Hnd Hok]. split; [done|].
  intros b (bx & Hbx & Hp & Hq & Hd)%Hok. exists bx.
  split_and!; [done..| |].
  - by apply isPositiveInt_true.
  - by apply isNonEmptyString_true.
Qed.

(** ** Reads *)

(** X9: a call that reads (the three getters of Box, [getItemData],
    [getBoxesByName], [getItemsById], [getContainerData]) leaves the store
    as it was, on any arguments, whether it returns or throws. *)
Theorem reads_leave_the_store (c : call) (h : heap) :
  is_read c = true → (exec c h).2 = h.
Proof.
  intros Hc. symmetry. apply (preserves_run (λ h', h = h')); [|done].
  pose proof (Box_get_qty_reads (λ h', h = h')).
  pose proof (Box_get_description_reads (λ h', h = h')).
  pose proof (Box_getParentItem_reads (λ h', h = h')).
  pose proof (Item_getItemData_reads (λ h', h = h')).
  pose proof (Item_getBoxesByName_reads (λ h', h = h')).
  pose proof (Container_getItemsById_reads (λ h', h = h')).
  pose proof (Container_getContainerData_reads (λ h', h = h')).
  destruct c; try discriminate Hc; simpl; preserve.
Qed.

(** ** Container.addItems on an Item instance *)

Lemma Set_add_member (s : list loc) (x : loc) : x ∈ s → Set_add s x = s.
Proof. intros Hx. unfold Set_add. by rewrite (proj2 (Set_has_true s x)). Qed.

Lemma elem_of_Set_add_same (s : list loc) (x : loc) : x ∈ Set_add s x.
Proof.
  unfold Set_add. destruct (Set_has s x) eqn:Hx.
  - by apply Set_has_true.
  - apply elem_of_app. right. apply list_elem_of_here.
Qed.

(** X3: [addItems(x)] on an Item instance returns, and the set of the
    container is its [Set.add] with [x]: when [x] is in the set already the
    store is as it was, otherwise [x] comes last.  So adding the same
    instance twice, in one call or in two, is adding it once. *)
Theorem Container_addItems_instance
    (h : heap) (this : loc) (c : Container) (l : loc) :
  h_containers h !! this = Some c →
  let h' := mkHeap (h_items h) (h_boxes h)
              (<[this := mkContainer (Set_add (itemList c) l)]>
                 (h_containers h)) in
  Container_addItems this [VItem l] h = (Ok tt, h')
  ∧ (l ∈ itemList c → h' = h)
  ∧ (l ∉ itemList c → Set_add (itemList c) l = itemList c ++ [l])
  ∧ Container_addItems this [VItem l] h' = (Ok tt, h')
  ∧ Container_addItems this [VItem l; VItem l] h = (Ok tt, h').
Proof.
  intros Hc h'.
  assert (this < length (h_containers h))%nat as Hlt
    by by eapply lookup_lt_Some.
  assert (Container_addItems this [VItem l] h = (Ok tt, h')) as Hone.
  { unfold Container_addItems. cbn [forEach]. unfold bind at 1.
    unfold Container_addItems_each, Container_add, write_Container.
    by rewrite (alter_lookup _ _ c). }
  assert (Container_addItems this [VItem l] h' = (Ok tt, h')) as Htwo.
  { unfold Container_addItems. cbn [forEach]. unfold bind at 1.
    unfold Container_addItems_each, Container_add, write_Container.
    unfold h'. cbn [h_items h_boxes h_containers].
    rewrite (alter_lookup _ _ (mkContainer (Set_add (itemList c) l)))
      by by apply list_lookup_insert_eq.
    rewrite list_insert_insert_eq. cbn [itemList].
    by rewrite (Set_add_member _ _ (elem_of_Set_add_same (itemList c) l)). }
  split_and!; [done| | |done|].
  - intros Hl. unfold h'. rewrite Set_add_member by done.
    rewrite list_insert_id by by destruct c. by destruct h.
  - apply Set_add_fresh.
  - change [VItem l; VItem l] with ([VItem l] ++ [VItem l]).
    unfold Container_addItems in *. cbn [forEach app] in *.
    unfold bind at 1. unfold bind in Hone at 1.
    destruct (Container_addItems_each this (VItem l) h) as [[[]|err] h1];
      [|discriminate].
    unfold ret in Hone. injection Hone as ->. exact Htwo.
Qed.

(** ** Removing what is not there *)


(** X11: a Box that was removed cannot be removed again.  After a
    [remove()] that returned, the Box still has its parent, the parent no
    longer holds it, and a second [remove()] throws the invalid-argument
    error, not the must-have-one-box one, and changes nothing. *)
Theorem Box_remove_twice (h h' : heap) (b : loc) :
  Box_remove b h = (Ok tt, h') →
  Box_remove b h' = (Throw (InvalidArgument "item.removeBox" (VBox b)), h')
  ∧ ∃ p it', Box_getParentItem b h' = (Ok (VItem p), h')
             ∧ h_items h' !! p = Some it' ∧ b ∉ boxes it'.
Proof.
  unfold Box_remove, bind at 1. unfold read_Box at 1.
  destruct (h_boxes h !! b) as [bx|] eqn:Hbx; [|discriminate].
  destruct (parentItem bx) as [| | | | | | |p| |] eqn:Hp; try discriminate.
  unfold Item_removeBox, bind, read_Item.
  destruct (h_items h !! p) as [it|] eqn:Hit; [|discriminate].
  simpl. destruct (Set_has (boxes it) b) eqn:Hhas; [|discriminate].
  destruct (Set_size (boxes it) <? 2)%nat; [discriminate|].
  unfold write_Item. intros [= <-].
  set (it' := mkItem (collection it) (item_name it) (item_id it)
                     (Set_delete (boxes it) b)).
  assert (alter (λ it0, mkItem (collection it0) (item_name it0)
                          (item_id it0) (Set_delete (boxes it0) b))
                p (h_items h) !! p = Some it') as Hit'.
  { by rewrite list_lookup_alter_eq, Hit. }
  assert (b ∉ Set_delete (boxes it) b) as Hnot.
  { intros [_ Hne]%elem_of_Set_delete. done. }
  split.
  - unfold read_Box. cbn [h_boxes h_items h_containers]. rewrite Hbx, Hp.
    cbn [h_items]. rewrite Hit'. simpl.
    by rewrite (proj2 (Set_has_false _ _) Hnot).
  - exists p, it'. split_and!; [|done|done].
    unfold Box_getParentItem, bind, read_Box. simpl. by rewrite Hbx, Hp.
Qed.

(** X12: a Box that a caller builds with [new Box] is in no set, so its
    [remove()] throws the invalid-argument error and changes nothing: only
    [addBoxes] and the Item constructor give an Item a Box. *)
Theorem new_Box_is_in_no_set
    (h h' : heap) (q d : value) (p b : loc) (it : Item) :
  wf_store h →
  h_items h !! p = Some it →
  new_Box q d (VItem p) h = (Ok b, h') →
  h_items h' = h_items h
  ∧ (b ∉ boxes it)
  ∧ Box_remove b h'
    = (Throw (InvalidArgument "item.removeBox" (VBox b)), h').
Proof.
  intros Hwf Hit. rewrite new_Box_eq. simpl.
  destruct (isPositiveInt q); simpl; [|discriminate].
  destruct (isNonEmptyString d); simpl; [|discriminate].
  intros [= <- <-]. pose proof (wf_store_fresh_box h p it Hwf Hit) as Hfresh.
  split_and!; [done..|].
  unfold Box_remove, bind at 1. unfold read_Box. simpl.
  rewrite lookup_snoc. simpl.
  unfold Item_removeBox, bind, read_Item. simpl. rewrite Hit. simpl.
  by rewrite (proj2 (Set_has_false _ _) Hfresh).
Qed.

(** X16: an Item that was deleted from a Container cannot be deleted
    again: after a [deleteItem(x)] that returned, the container does not
    hold [x], a second [deleteItem(x)] throws the invalid-argument error and
    changes nothing. *)
Theorem Container_deleteItem_twice (h h' : heap) (this : loc) (e : value) :
  Container_deleteItem this e h = (Ok tt, h') →
  Container_deleteItem this e h'
    = (Throw (InvalidArgument "Container.deleteItem" e), h')
  ∧ ∃ l c', e = VItem l ∧ h_containers h' !! this = Some c'
            ∧ l ∉ itemList c'.
Proof.
  unfold Container_deleteItem, bind at 1. unfold read_Container at 1.
  destruct (h_containers h !! this) as [c|] eqn:Hc; [|discriminate].
  destruct e; try discriminate. simpl.
  destruct (Set_has (itemList c) l); [|discriminate].
  unfold write_Container. intros [= <-].
  set (c' := mkContainer (Set_delete (itemList c) l)).
  assert (alter (λ c0, mkContainer (Set_delete (itemList c0) l)) this
                (h_containers h) !! this = Some c') as Hc'.
  { by rewrite list_lookup_alter_eq, Hc. }
  assert (l ∉ Set_delete (itemList c) l) as Hnot.
  { intros [_ Hne]%elem_of_Set_delete. done. }
  split.
  - unfold bind, read_Container. cbn [h_containers]. rewrite Hc'.
    simpl. by rewrite (proj2 (Set_has_false _ _) Hnot).
  - by exists l, c'.
Qed.

(** ** Boxes and their Item *)

(** X2: in the store of a program, [getParentItem] of a Box of an Item's
    set returns that Item, so no Box is in the sets of two Items. *)
Theorem Box_has_one_owner (h : heap) (l : loc) (it : Item) (b : loc) :
  store h →
  h_items h !! l = Some it →
  b ∈ boxes it →
  Box_getParentItem b h = (Ok (VItem l), h)
  ∧ ∀ l' it', h_items h !! l' = Some it' → b ∈ boxes it' → l' = l.
Proof.
  intros [HI _]%store_is_wf Hit Hb.
  destruct (HI l it Hit) as [_ Hok].
  destruct (Hok b Hb) as (bx & Hbx & Hp & _). split.
  - unfold Box_getParentItem, bind, read_Box. by rewrite Hbx, Hp.
  - intros l' it' Hit' Hb'. destruct (HI l' it' Hit') as [_ Hok'].
    destruct (Hok' b Hb') as (bx' & Hbx' & Hp' & _). congruence.
Qed.

(** ** The Item constructor *)

Lemma valid_descriptorb_true (el : value) :
  valid_descriptorb el = true ↔ valid_descriptor el.
Proof.
  unfold valid_descriptorb, valid_descriptor. split.
  - destruct (get_index el 0) as [q|]; [|discriminate].
    destruct (get_index el 1) as [d|]; [|discriminate].
    intros [Hq Hd]%andb_true_iff. by exists q, d.
  - intros (q & d & -> & -> & Hq & Hd). by rewrite Hq, Hd.
Qed.

(** Descriptors are all valid, or there is a first invalid one. *)
Lemma first_invalid_descriptor (bs : list value) :
  Forall valid_descriptor bs
  ∨ ∃ pre bad rest, bs = pre ++ bad :: rest
                    ∧ Forall valid_descriptor pre ∧ ¬ valid_descriptor bad.
Proof.
  induction bs as [|el bs IH]; [by left|].
  destruct (valid_descriptorb el) eqn:Hel.
  - apply valid_descriptorb_true in Hel.
    destruct IH as [Hall|(pre & bad & rest & -> & Hpre & Hbad)].
    + left. by constructor.
    + right. exists (el :: pre), bad, rest. split_and!; [done| |done].
      by constructor.
  - right. exists [], el, bs. split_and!; [done|constructor|].
    intros Hv%valid_descriptorb_true. congruence.
Qed.

(** [new Item] on valid scalar fields and valid descriptors, one at
    least. *)
Lemma new_Item_valid (sc sn : string) (z : Z) (bs : list value) (h : heap) :
  trim sc ≠ "" → trim sn ≠ "" → 0 < z →
  bs ≠ [] → Forall valid_descriptor bs →
  new_Item (VStr sc) (VStr sn) (num z) bs h
    = (Ok (length (h_items h)),
       mkHeap (h_items h
               ++ [mkItem (VStr (trim sc)) (VStr (trim sn)) (num z)
                          (seq (length (h_boxes h)) (length bs))])
              (h_boxes h ++ (box_of (length (h_items h)) <$> bs))
              (h_containers h)).
Proof.
  intros Hc Hn Hz Hbs Hall.
  rewrite new_Item_valid_fields by done.
  unfold Item_addBoxes.
  destruct bs as [|el bs]; [done|]. cbn [length Nat.ltb Nat.leb].
  unfold bind at 1.
  rewrite (Item_addBoxes_valid_run (el :: bs) _ _
             (mkItem (VStr (trim sc)) (VStr (trim sn)) (num z) [])).
  - cbn [h_items h_boxes h_containers collection item_name item_id boxes
         app].
    by rewrite insert_snoc.
  - apply lookup_snoc.
  - simpl. by intros b ?%elem_of_nil.
  - done.
Qed.

(** [forEach] over a list that starts with a run that returns goes on
    from where the run left the store. *)
Lemma forEach_app {X} (f : X → M unit) (l1 l2 : list X) (h0 h1 : heap) :
  forEach f l1 h0 = (Ok tt, h1) →
  forEach f (l1 ++ l2) h0 = forEach f l2 h1.
Proof.
  revert h0. induction l1 as [|x l1 IH]; intros h0.
  - simpl. unfold ret. by intros [= ->].
  - simpl. unfold bind. destruct (f x h0) as [[[]|e] h2]; [|done].
    apply IH.
Qed.

(** [addBoxes] throws at the first invalid descriptor. *)
Lemma Item_addBoxes_throws (h : heap) (this : loc) (it : Item)
    (pre : list value) (bad : value) (rest : list value) :
  h_items h !! this = Some it →
  (∀ b, b ∈ boxes it → (b < length (h_boxes h))%nat) →
  Forall valid_descriptor pre →
  ¬ valid_descriptor bad →
  ∃ err h', Item_addBoxes this (pre ++ bad :: rest) h = (Throw err, h').
Proof.
  intros Hit Hin Hpre Hbad. unfold Item_addBoxes.
  replace (0 <? length (pre ++ bad :: rest))%nat with true
    by (symmetry; apply Nat.ltb_lt; rewrite length_app; simpl; lia).
  erewrite forEach_app by (by apply Item_addBoxes_valid_run).
  cbn [forEach]. unfold bind.
  edestruct (Item_addBoxes_each_invalid) as (err & garbage & ->); [done|].
  eauto.
Qed.

(** X6: [new Item] returns exactly when [collection] and [item_name]
    are strings that are not blank, [item_id] is a positive integer, and
    there is at least one box descriptor and each one is valid; otherwise
    it throws. *)
Theorem new_Item_returns_iff (c n i : value) (bs : list value) (h : heap) :
  (∃ l h', new_Item c n i bs h = (Ok l, h'))
  ↔ isNonEmptyString c = true ∧ isNonEmptyString n = true
    ∧ isPositiveInt i = true ∧ bs ≠ [] ∧ Forall valid_descriptor bs.
Proof.
  split.
  - intros (l & h' & Hrun).
    destruct (isNonEmptyString c) eqn:Hc.
    2:{ unfold new_Item, bind, alloc_Item, Item_set_collection in Hrun.
        rewrite Hc in Hrun. discriminate. }
    destruct (isNonEmptyString n) eqn:Hn.
    2:{ apply isNonEmptyString_true in Hc as (sc & -> & Hsc).
        unfold new_Item, bind, alloc_Item, Item_set_collection,
          Item_set_item_name in Hrun.
        rewrite Hn in Hrun.
        rewrite (proj2 (isNonEmptyString_true (VStr sc))) in Hrun by eauto.
        discriminate. }
    destruct (isPositiveInt i) eqn:Hi.
    2:{ apply isNonEmptyString_true in Hc as (sc & -> & Hsc).
        apply isNonEmptyString_true in Hn as (sn & -> & Hsn).
        unfold new_Item, bind, alloc_Item, Item_set_collection,
          Item_set_item_name, Item_set_item_id in Hrun.
        rewrite Hi in Hrun.
        rewrite (proj2 (isNonEmptyString_true (VStr sc))) in Hrun by eauto.
        rewrite (proj2 (isNonEmptyString_true (VStr sn))) in Hrun by eauto.
        discriminate. }
    split_and!; try done.
    + intros ->.
      apply isNonEmptyString_true in Hc as (sc & -> & Hsc).
      apply isNonEmptyString_true in Hn as (sn & -> & Hsn).
      apply isPositiveInt_true in Hi as (z & -> & Hz).
      change (VNum (Integer z)) with (num z) in Hrun.
      rewrite new_Item_valid_fields in Hrun by done. discriminate.
    + apply isNonEmptyString_true in Hc as (sc & -> & Hsc).
      apply isNonEmptyString_true in Hn as (sn & -> & Hsn).
      apply isPositiveInt_true in Hi as (z & -> & Hz).
      change (VNum (Integer z)) with (num z) in Hrun.
      rewrite new_Item_valid_fields in Hrun by done.
      destruct (first_invalid_descriptor bs)
        as [Hall|(pre & bad & rest & -> & Hpre & Hbad)]; [done|].
      unfold bind at 1 in Hrun.
      edestruct (Item_addBoxes_throws
                   (mkHeap (h_items h
                            ++ [mkItem (VStr (trim sc)) (VStr (trim sn))
                                       (num z) []])
                           (h_boxes h) (h_containers h))
                   (length (h_items h))
                   (mkItem (VStr (trim sc)) (VStr (trim sn)) (num z) [])
                   pre bad rest)
        as (err & h1 & Hthrow);
        [apply lookup_snoc | by intros b ?%elem_of_nil | done..|].
      rewrite Hthrow in Hrun. discriminate.
  - intros (Hc & Hn & Hi & Hbs & Hall).
    apply isNonEmptyString_true in Hc as (sc & -> & Hsc).
    apply isNonEmptyString_true in Hn as (sn & -> & Hsn).
    apply isPositiveInt_true in Hi as (z & -> & Hz).
    change (VNum (Integer z)) with (num z).
    rewrite new_Item_valid by done. eauto.
Qed.

(** ** The three views of an Item *)

Lemma Item_getDataAsJson_eq (h : heap) (this : loc) (it : Item) :
  h_items h !! this = Some it →
  (∀ b, b ∈ boxes it → is_Some (h_boxes h !! b)) →
  Item_getDataAsJson this h
    = (Ok (VObj [("collection", collection it);
                 ("item_name", item_name it);
                 ("item_id", item_id it);
                 ("boxes", VArr (box_json h <$> boxes it))]), h).
Proof.
  intros Hit Hbs.
  unfold Item_getDataAsJson. unfold bind at 1. unfold read_Item.
  rewrite Hit. unfold bind at 1.
  rewrite (mapM_pure _ (box_json h)); [done|].
  intros b [bx Hbx]%Hbs. unfold box_json. run. rewrite Hbx. run.
  by rewrite Hbx.
Qed.

Lemma Item_getDataAsTable_eq (h : heap) (this : loc) (it : Item) :
  h_items h !! this = Some it →
  (∀ b, b ∈ boxes it → is_Some (h_boxes h !! b)) →
  Item_getDataAsTable this h = (Ok (VArr (box_row h it <$> boxes it)), h).
Proof.
  intros Hit Hbs.
  unfold Item_getDataAsTable. unfold bind at 1. unfold read_Item.
  rewrite Hit. unfold bind at 1.
  rewrite (mapM_pure _ (box_row h it)); [done|].
  intros b [bx Hbx]%Hbs. unfold box_row. run. rewrite Hbx. run.
  by rewrite Hbx.
Qed.

(** X8: the views of an Item whose Boxes are in the store, for a set of
    any size.  ["obj"], and a call without argument, give the scalar fields
    and the Box instances; ["json"] gives the fields and one
    [{qty, description}] record per Box; ["table"] gives one row per Box;
    all three list the Boxes in the order of the set. *)
Theorem Item_getItemData_views
    (h : heap) (this : loc) (it : Item) (f : string) :
  h_items h !! this = Some it →
  (∀ b, b ∈ boxes it → is_Some (h_boxes h !! b)) →
  let fields := [("collection", collection it);
                 ("item_name", item_name it);
                 ("item_id", item_id it)] in
  Item_getItemData this VUndefined h
    = (Ok (VObj (fields ++ [("boxes", VArr (VBox <$> boxes it))])), h)
  ∧ (toLowerCase f = "obj" →
     Item_getItemData this (VStr f) h
       = (Ok (VObj (fields ++ [("boxes", VArr (VBox <$> boxes it))])), h))
  ∧ (toLowerCase f = "json" →
     Item_getItemData this (VStr f) h
       = (Ok (VObj (fields ++ [("boxes", VArr (box_json h <$> boxes it))])),
          h))
  ∧ (toLowerCase f = "table" →
     Item_getItemData this (VStr f) h
       = (Ok (VArr (box_row h it <$> boxes it)), h)
     ∧ length (box_row h it <$> boxes it) = Set_size (boxes it)).
Proof.
  intros Hit Hbs fields. split_and!.
  - by apply Item_getItemData_default.
  - intros Hf. rewrite Item_getItemData_format, Hf by auto. simpl.
    unfold Item_getDataAsOBJ. run. by rewrite Hit.
  - intros Hf. rewrite Item_getItemData_format, Hf by auto. simpl.
    by apply Item_getDataAsJson_eq.
  - intros Hf. split; [|by rewrite length_fmap].
    rewrite Item_getItemData_format, Hf by auto. simpl.
    by apply Item_getDataAsTable_eq.
Qed.

(** The JSON records of the Boxes that [addBoxes] built from
    descriptors are the descriptors' pairs. *)
Lemma box_json_descriptors (old : list Box) (this : loc) (bs : list value)
    (items : list Item) (cs : list Container) :
  box_json (mkHeap items (old ++ (box_of this <$> bs)) cs)
    <$> seq (length old) (length bs)
  = json_of_descriptor <$> bs.
Proof.
  apply list_eq. intros j. rewrite !list_lookup_fmap.
  destruct (decide (j < length bs)%nat) as [Hlt|Hge].
  - rewrite lookup_seq_lt by done.
    destruct (lookup_lt_is_Some_2 bs j Hlt) as [el Hel]. rewrite Hel.
    simpl. f_equal. unfold box_json. simpl.
    rewrite lookup_app_r by lia.
    replace (length old + j - length old)%nat with j by lia.
    by rewrite list_lookup_fmap, Hel.
  - rewrite lookup_seq_ge by lia.
    by rewrite lookup_ge_None_2 by lia.
Qed.

(** X7: the round trip of an Item.  Built from valid scalar fields and
    valid box descriptors, one at least, its JSON view gives back the
    [collection] and the [item_name], trimmed, the [item_id], and the
    descriptors as [{qty, description}] records, in order and
    untrimmed. *)
Theorem Item_round_trip
    (sc sn : string) (z : Z) (bs : list value) (h : heap) :
  trim sc ≠ "" → trim sn ≠ "" → 0 < z →
  bs ≠ [] → Forall valid_descriptor bs →
  ∃ this h',
    new_Item (VStr sc) (VStr sn) (num z) bs h = (Ok this, h')
    ∧ Item_getItemData this (VStr "json") h'
      = (Ok (VObj [("collection", VStr (trim sc));
                   ("item_name", VStr (trim sn));
                   ("item_id", num z);
                   ("boxes", VArr (json_of_descriptor <$> bs))]), h').
Proof.
  intros Hc Hn Hz Hbs Hall. eexists _, _.
  split; [by apply new_Item_valid|].
  set (this := length (h_items h)).
  set (it := mkItem (VStr (trim sc)) (VStr (trim sn)) (num z)
                    (seq (length (h_boxes h)) (length bs))).
  set (h' := mkHeap (h_items h ++ [it])
               (h_boxes h ++ (box_of this <$> bs)) (h_containers h)).
  rewrite Item_getItemData_format by auto. simpl.
  rewrite (Item_getDataAsJson_eq h' this it).
  - unfold h' at 1. simpl. by rewrite box_json_descriptors.
  - apply lookup_snoc.
  - intros b [Hge Hlt]%elem_of_seq. apply lookup_lt_is_Some. simpl.
    rewrite length_app, length_fmap. lia.
Qed.

(** ** Strings as lists of characters *)

Lemma list_of_rev_app (s1 s2 : string) :
  list_ascii_of_string (String.rev_app s1 s2)
  = rev (list_ascii_of_string s1) ++ list_ascii_of_string s2.
Proof.
  revert s2. induction s1 as [|a s1 IH]; intros s2; [done|].
  simpl. rewrite IH. simpl. by rewrite <- app_assoc.
Qed.

Lemma list_of_rev (s : string) :
  list_ascii_of_string (String.rev s) = rev (list_ascii_of_string s).
Proof. unfold String.rev. rewrite list_of_rev_app. apply app_nil_r. Qed.

Lemma list_of_trimStart (s : string) :
  list_ascii_of_string (trimStart s) = drop_white (list_ascii_of_string s).
Proof.
  induction s as [|c s IH]; [done|]. simpl.
  by destruct (is_white_space c).
Qed.

Lemma list_of_trim (s : string) :
  list_ascii_of_string (trim s)
  = rev (drop_white (rev (drop_white (list_ascii_of_string s)))).
Proof.
  unfold trim, trimEnd.
  by rewrite list_of_rev, list_of_trimStart, list_of_rev, list_of_trimStart.
Qed.

Lemma list_of_toLowerCase (s : string) :
  list_ascii_of_string (toLowerCase s)
  = map lower_char (list_ascii_of_string s).
Proof. induction s as [|c s IH]; [done|]. simpl. by rewrite IH. Qed.

Lemma string_of_list_inj (s t : string) :
  list_ascii_of_string s = list_ascii_of_string t → s = t.
Proof.
  intros Heq. rewrite <- (string_of_list_ascii_of_string s),
    <- (string_of_list_ascii_of_string t). by rewrite Heq.
Qed.

Lemma drop_white_nil (l : list ascii) :
  drop_white l = [] ↔ Forall (λ c, is_white_space c = true) l.
Proof.
  induction l as [|c l IH]; [by split; [constructor|]|].
  simpl. destruct (is_white_space c) eqn:Hc.
  - rewrite IH. split; [by constructor|]. by intros [_ ?]%Forall_cons.
  - split; [done|]. intros [? _]%Forall_cons. congruence.
Qed.

Lemma drop_white_head (l : list ascii) (c : ascii) (y : list ascii) :
  drop_white l = c :: y → is_white_space c = false.
Proof.
  induction l as [|a l IH]; [done|]. simpl.
  destruct (is_white_space a) eqn:Ha; [done|]. by intros [= <- _].
Qed.

Lemma drop_white_keeps (c : ascii) (y : list ascii) :
  is_white_space c = false → drop_white (c :: y) = c :: y.
Proof. intros Hc. simpl. by rewrite Hc. Qed.

Lemma drop_white_app (x : list ascii) (c : ascii) (y : list ascii) :
  is_white_space c = false →
  drop_white (x ++ c :: y) = drop_white x ++ c :: y.
Proof.
  intros Hc. induction x as [|a x IH]; [by apply drop_white_keeps|].
  simpl. by destruct (is_white_space a).
Qed.

Lemma drop_white_idem (l : list ascii) :
  drop_white (drop_white l) = drop_white l.
Proof.
  induction l as [|a l IH]; [done|]. simpl.
  destruct (is_white_space a) eqn:Ha; [done|]. by apply drop_white_keeps.
Qed.

(** [trim] leaves nothing to trim. *)
Lemma trim_idem (s : string) : trim (trim s) = trim s.
Proof.
  apply string_of_list_inj. rewrite (list_of_trim (trim s)), list_of_trim.
  destruct (drop_white (list_ascii_of_string s)) as [|c y] eqn:Hdw; [done|].
  pose proof (drop_white_head _ _ _ Hdw) as Hc.
  cbn [rev]. rewrite (drop_white_app (rev y) c []) by done.
  rewrite rev_app_distr. cbn [rev app].
  rewrite drop_white_keeps by done.
  cbn [rev]. rewrite rev_involutive.
  rewrite (drop_white_app _ c []) by done.
  by rewrite drop_white_idem, rev_app_distr.
Qed.

(** [trim] gives the empty string on white space only. *)
Lemma trim_empty_iff (s : string) :
  trim s = ""
  ↔ Forall (λ c, is_white_space c = true) (list_ascii_of_string s).
Proof.
  rewrite <- drop_white_nil. split.
  - intros Hs. pose proof (list_of_trim s) as Hl. rewrite Hs in Hl.
    simpl in Hl. symmetry in Hl.
    destruct (drop_white (list_ascii_of_string s)) as [|c y] eqn:Hdw;
      [done|].
    pose proof (drop_white_head _ _ _ Hdw) as Hc.
    cbn [rev] in Hl. rewrite (drop_white_app (rev y) c []) in Hl by done.
    rewrite rev_app_distr in Hl. discriminate.
  - intros Hdw. apply string_of_list_inj. by rewrite list_of_trim, Hdw.
Qed.

(** ** lib/utils.js: isNonEmptyString *)

(** X13: [isNonEmptyString] holds of the strings that have a character
    that is not white space, and of nothing else: not of the empty string,
    of a string of white space only, or of a value that is not a string. *)
Theorem isNonEmptyString_iff (e : value) :
  isNonEmptyString e = true
  ↔ ∃ s c, e = VStr s ∧ c ∈ list_ascii_of_string s
           ∧ is_white_space c = false.
Proof.
  rewrite isNonEmptyString_true. split.
  - intros (s & -> & Hs). rewrite trim_empty_iff in Hs.
    apply not_Forall_Exists in Hs; [|intros c; apply _].
    apply Exists_exists in Hs as (c & Hc & Hw). exists s, c.
    simpl in Hw. split_and!; [done..|]. by destruct (is_white_space c).
  - intros (s & c & -> & Hc & Hw). exists s. split; [done|].
    rewrite trim_empty_iff. intros Hall.
    rewrite Forall_forall in Hall. specialize (Hall c Hc). congruence.
Qed.

(** ** Item.getBoxesByName *)

Lemma Item_getBoxesByName_eq
    (h : heap) (this : loc) (it : Item) (s : string) :
  h_items h !! this = Some it →
  (∀ b, b ∈ boxes it → is_Some (h_boxes h !! b)) →
  trim s ≠ "" →
  Item_getBoxesByName this (VStr s) h
    = (Ok (VArr (VBox <$> List.filter (has_description h (trim s))
                                      (boxes it))), h).
Proof.
  intros Hit Hbs Hs. unfold Item_getBoxesByName.
  rewrite (proj2 (isNonEmptyString_true (VStr s))) by eauto. simpl.
  unfold bind at 1. unfold read_Item. rewrite Hit.
  unfold bind at 1.
  rewrite (filterM_pure _ (has_description h (trim s))); [done|].
  intros b [bx Hbx]%Hbs. unfold has_description. run. rewrite Hbx.
  by destruct (description bx).
Qed.


(** X5: a Box whose description has white space at an end is never
    found by [getBoxesByName], whatever the argument: the argument is
    trimmed and the stored description, which the Box setter accepts
    untrimmed, is not. *)
Theorem Item_getBoxesByName_untrimmed
    (h : heap) (this : loc) (it : Item) (b : loc) (bx : Box) (d : string)
    (e : value) (found : list value) (h' : heap) :
  h_items h !! this = Some it →
  (∀ b, b ∈ boxes it → is_Some (h_boxes h !! b)) →
  h_boxes h !! b = Some bx →
  description bx = VStr d →
  trim d ≠ d →
  Item_getBoxesByName this e h = (Ok (VArr found), h') →
  VBox b ∉ found.
Proof.
  intros Hit Hbs Hbx Hd Htrim Hrun Hin.
  destruct (isNonEmptyString e) eqn:He.
  2:{ unfold Item_getBoxesByName in Hrun. rewrite He in Hrun.
      discriminate. }
  apply isNonEmptyString_true in He as (s & -> & Hs).
  rewrite (Item_getBoxesByName_eq h this it s Hit Hbs Hs) in Hrun.
  injection Hrun as <- <-.
  apply list_elem_of_fmap in Hin as (b' & [= <-] & Hb).
  apply list_elem_of_In, filter_In in Hb as [_ Hb].
  unfold has_description in Hb. rewrite Hbx, Hd in Hb.
  apply String.eqb_eq in Hb. apply Htrim. rewrite Hb. apply trim_idem.
Qed.

(** ** Formats are read in lower case *)

Lemma is_white_space_lower_char (c : ascii) :
  is_white_space (lower_char c) = is_white_space c.
Proof. destruct c as [[] [] [] [] [] [] [] []]; vm_compute; reflexivity. Qed.

Lemma lower_char_idem (c : ascii) : lower_char (lower_char c) = lower_char c.
Proof. destruct c as [[] [] [] [] [] [] [] []]; vm_compute; reflexivity. Qed.

Lemma toLowerCase_idem (s : string) :
  toLowerCase (toLowerCase s) = toLowerCase s.
Proof.
  induction s as [|c s IH]; [done|]. simpl. by rewrite lower_char_idem, IH.
Qed.

Lemma trim_toLowerCase_empty (s : string) :
  trim (toLowerCase s) = "" ↔ trim s = "".
Proof.
  rewrite !trim_empty_iff, list_of_toLowerCase, Forall_map.
  apply Forall_iff. intros c. simpl. by rewrite is_white_space_lower_char.
Qed.

(** A blank string has no letter to lower. *)
Lemma toLowerCase_blank (s : string) : trim s = "" → toLowerCase s = s.
Proof.
  rewrite trim_empty_iff. induction s as [|c s IH]; [done|].
  simpl. intros [Hc Hs]%Forall_cons.
  by rewrite lower_char_white_space, IH.
Qed.

(** X14: the format of [getItemData] and [getContainerData] is read
    without regard to letter case: the call on a string and the call on
    the string in lower case do the same, for the three formats, for an
    unknown format and for a blank string alike. *)
Theorem format_case_insensitive (this : loc) (f : string) (h : heap) :
  Item_getItemData this (VStr (toLowerCase f)) h
    = Item_getItemData this (VStr f) h
  ∧ Container_getContainerData this (VStr (toLowerCase f)) h
    = Container_getContainerData this (VStr f) h.
Proof.
  destruct (decide (trim f = "")) as [Hblank|Hf].
  - by rewrite toLowerCase_blank.
  - assert (trim (toLowerCase f) ≠ "") as Hl
      by by rewrite trim_toLowerCase_empty.
    unfold Item_getItemData, Container_getContainerData.
    rewrite (proj2 (isNonEmptyString_true (VStr f))) by eauto.
    rewrite (proj2 (isNonEmptyString_true (VStr (toLowerCase f))))
      by eauto.
    simpl. unfold bind, lift. simpl. by rewrite toLowerCase_idem.
Qed.

(** ** The views of a Container in the store of a program *)

(** X15: in the store of a program, the JSON and table views of a
    Container are returned, none of its references dangles: the JSON view
    is the JSON views of its Items in the order of the set, and the table
    view is their rows, Item after Item, one row per Box. *)
Theorem Container_views_in_store
    (h : heap) (this : loc) (c : Container) (f : string) :
  store h →
  h_containers h !! this = Some c →
  (toLowerCase f = "json" →
     Container_getContainerData this (VStr f) h
       = (Ok (VArr (item_json h <$> itemList c)), h))
  ∧ (toLowerCase f = "table" →
     Container_getContainerData this (VStr f) h
       = (Ok (VArr (concat (item_rows h <$> itemList c))), h)).
Proof.
  intros [HI HC]%store_is_wf Hc.
  destruct (HC this c Hc) as [_ Hitems].
  assert (∀ l, l ∈ itemList c →
            ∃ it, h_items h !! l = Some it
                  ∧ ∀ b, b ∈ boxes it → is_Some (h_boxes h !! b)) as Hin.
  { intros l [it Hit]%Hitems. exists it. split; [done|].
    destruct (HI l it Hit) as [_ Hok].
    intros b (bx & Hbx & _)%Hok. by exists bx. }
  split; intros Hf; rewrite Container_getContainerData_format, Hf by auto;
    simpl.
  - unfold Container_getDataAsJson, bind at 1. unfold read_Container.
    rewrite Hc. unfold bind at 1.
    rewrite (mapM_pure _ (item_json h)); [done|].
    intros l (it & Hit & Hbs)%Hin.
    rewrite Item_getItemData_format by auto. simpl.
    unfold item_json. rewrite Hit. by apply Item_getDataAsJson_eq.
  - unfold Container_getDataAsTable, bind at 1. unfold read_Container.
    rewrite Hc. unfold bind at 1.
    rewrite (mapM_pure _ (λ l, VArr (item_rows h l))).
    + unfold ret. by rewrite (list_fmap_compose (item_rows h) VArr),
        Array_flat_arrays.
    + intros l (it & Hit & Hbs)%Hin.
      rewrite Item_getItemData_format by auto. simpl.
      unfold item_rows. rewrite Hit. by apply Item_getDataAsTable_eq.
Qed.

(** ** lib/auth.js: who is verified *)

Lemma prefix_app (p s : string) :
  String.prefix p s = true ↔ ∃ r, s = String.append p r.
Proof.
  revert s. induction p as [|a p IH]; intros s.
  - split; [|by destruct s]. intros _. by exists s.
  - destruct s as [|b s]; simpl.
    + split; [done|]. by intros [r ?].
    + destruct (ascii_dec a b) as [->|Hne].
      * rewrite IH. split; intros [r Hr]; exists r;
          [by rewrite Hr | by injection Hr].
      * split; [done|]. intros [r [= ? _]]. done.
Qed.

Lemma index_prefix (p s : string) :
  String.prefix p s = true → String.index 0 p s = Some 0%nat.
Proof.
  intros Hp. destruct s as [|b s].
  - by destruct p.
  - cbn [String.index]. by rewrite Hp.
Qed.

Lemma substring_all (s : string) :
  String.substring 0 (String.length s) s = s.
Proof. induction s as [|c s IH]; [done|]. simpl. by rewrite IH. Qed.

Lemma substring_nothing (s : string) : String.substring 0 0 s = "".
Proof. by destruct s. Qed.

Lemma substring_after (p e : string) :
  String.substring (String.length p)
    (String.length (String.append p e) - String.length p)
    (String.append p e) = e.
Proof.
  induction p as [|c p IH]; simpl.
  - rewrite Nat.sub_0_r. apply substring_all.
  - apply IH.
Qed.

(** Taking a prefix out with [replace] leaves what follows it. *)
Lemma replace_prefix (p e : string) :
  Auth.replace (String.append p e) p "" = e.
Proof.
  unfold Auth.replace.
  rewrite index_prefix by (apply prefix_app; eauto).
  rewrite substring_nothing. simpl. apply substring_after.
Qed.

Lemma truthy_Some (x : option string) :
  Auth.truthy x = true ↔ ∃ s, x = Some s ∧ s ≠ "".
Proof.
  destruct x as [s|]; simpl.
  - rewrite negb_true_iff, String.eqb_neq. split.
    + intros Hs. by exists s.
    + by intros (s' & [= <-] & Hs).
  - split; [done|]. by intros (s & Hs & _).
Qed.

(** X17: with an Authorization header, [isVerified] verifies exactly when
    the header is ["Basic "] followed by a text whose base-64 decoding is
    the password of the environment, which must be set.  The session cookie
    and the cookie table are not looked at, so a wrong header is refused
    even with a verified cookie; and whether the new cookie can be stored
    does not change the verdict. *)
Theorem isVerified_header
    (base64_decode : string → string) (data_password : option string)
    (insert_cookie : Auth.db_response)
    (select_cookie : string → Auth.db_response)
    (h : string) (this : Auth.t) :
  Auth.authHeader this = Some h → h ≠ "" →
  (Auth.verified
     (Auth.isVerified base64_decode data_password insert_cookie
        select_cookie this) = true
   ↔ ∃ enc, h = String.append "Basic " enc
            ∧ data_password = Some (base64_decode enc))
  ∧ (∀ insert_cookie' select_cookie' cookie',
       Auth.verified
         (Auth.isVerified base64_decode data_password insert_cookie'
            select_cookie' (Auth.mkAuth (Some h) cookie'))
       = Auth.verified
           (Auth.isVerified base64_decode data_password insert_cookie
              select_cookie this)).
Proof.
  intros Hh Hne.
  assert (Auth.truthy (Some h) = true) as Ht by (apply truthy_Some; eauto).
  assert (∀ ins sel this', Auth.authHeader this' = Some h →
            Auth.verified
              (Auth.isVerified base64_decode data_password ins sel this')
            = Auth.startsWith h "Basic "
              && match data_password with
                 | Some p =>
                     String.eqb
                       (base64_decode (Auth.replace h "Basic " "")) p
                 | None => false
                 end) as Heq.
  { intros ins sel this' Hthis.
    unfold Auth.isVerified, Auth.authHeaderPasswordMatch.
    rewrite Hthis, Ht. simpl.
    destruct (Auth.startsWith h "Basic "); simpl; [|done].
    by destruct data_password as [p|];
      [destruct (String.eqb _ p)|]. }
  split.
  - rewrite (Heq _ _ this Hh), andb_true_iff. unfold Auth.startsWith.
    rewrite prefix_app. split.
    + intros [[enc ->] Hp]. exists enc. split; [done|].
      rewrite replace_prefix in Hp.
      destruct data_password as [p|]; [|done].
      apply String.eqb_eq in Hp. by rewrite Hp.
    + intros (enc & -> & ->). split; [eauto|].
      rewrite replace_prefix. apply String.eqb_refl.
  - intros ins' sel' cookie'. by rewrite !Heq.
Qed.

(** X18: without an Authorization header (absent or empty),
    [isVerified] verifies exactly when the session cookie is set and the
    query of the cookie table resolves without error to rows the first of
    which is verified; no new cookie is ever issued on this path. *)
Theorem isVerified_cookie
    (base64_decode : string → string) (data_password : option string)
    (insert_cookie : Auth.db_response)
    (select_cookie : string → Auth.db_response) (this : Auth.t) :
  Auth.truthy (Auth.authHeader this) = false →
  let r := Auth.isVerified base64_decode data_password insert_cookie
             select_cookie this in
  (Auth.verified r = true
   ↔ ∃ c row rows, Auth.sessionCookie this = Some c ∧ c ≠ ""
                   ∧ select_cookie c = Auth.Resolved false (Some (row :: rows))
                   ∧ Auth.is_verified row = true)
  ∧ Auth.newCookie r = None.
Proof.
  intros Hh r. unfold r, Auth.isVerified, Auth.isCookieVerified.
  rewrite Hh. simpl.
  destruct (Auth.truthy (Auth.sessionCookie this)) eqn:Hc; simpl.
  - apply truthy_Some in Hc as (c & Hc & Hne). rewrite Hc. simpl.
    destruct (select_cookie c) as [|[] [[|row rows]|]] eqn:Hsel; simpl;
      try (split; [|done]; split; [done|];
           intros (c' & row' & rows' & [= <-] & _ & Hsel' & _);
           congruence).
    destruct (Auth.is_verified row) eqn:Hrow; simpl.
    + split; [|done]. split; [|done]. intros _. by exists c, row, rows.
    + split; [|done]. split; [done|].
      intros (c' & row' & rows' & [= <-] & _ & Hsel' & Hrow').
      congruence.
  - split; [|done]. split; [done|].
    intros (c & row & rows & Hsome & Hne & _).
    assert (Auth.truthy (Auth.sessionCookie this) = true)
      by (apply truthy_Some; eauto).
    congruence.
Qed.

(** X19: [isVerified] hands out a new cookie exactly when the
    Authorization header verifies and the insertion into the cookie table
    resolves without error to a row with a cookie string; when the
    insertion fails the caller is verified all the same, without a
    cookie. *)
Theorem isVerified_newCookie
    (base64_decode : string → string) (data_password : option string)
    (insert_cookie : Auth.db_response)
    (select_cookie : string → Auth.db_response) (this : Auth.t)
    (ck : string) :
  let r := Auth.isVerified base64_decode data_password insert_cookie
             select_cookie this in
  Auth.newCookie r = Some ck
  ↔ Auth.truthy (Auth.authHeader this) = true
    ∧ Auth.verified r = true
    ∧ ∃ row rows, insert_cookie = Auth.Resolved false (Some (row :: rows))
                  ∧ Auth.cookie_string row = Some ck.
Proof.
  intros r. unfold r, Auth.isVerified, Auth.createCookie.
  destruct (Auth.truthy (Auth.authHeader this)) eqn:Hh; simpl.
  - destruct (Auth.startsWith _ "Basic "); simpl;
      [|split; [discriminate | intros (_ & Hv & _); discriminate Hv]].
    destruct (Auth.authHeaderPasswordMatch _ _ this); simpl;
      [|split; [discriminate | intros (_ & Hv & _); discriminate Hv]].
    destruct insert_cookie as [|[] [[|row rows]|]]; simpl;
      try (split; [discriminate
                  |intros (_ & _ & row' & rows' & Hins & _);
                   discriminate Hins]).
    split.
    + intros Hck. split_and!; [done..|]. by exists row, rows.
    + by intros (_ & _ & row' & rows' & [= <- <-] & Hck).
  - split; [|intros (Hf & _); discriminate Hf].
    destruct (Auth.truthy (Auth.sessionCookie this)); simpl;
      [|discriminate].
    destruct (Auth.found _ && Auth.check_verified _); simpl;
      [discriminate|].
    destruct (Auth.found _ && negb (Auth.check_verified _)); simpl;
      discriminate.
Qed.

(** * The properties on the example stores *)

(** Membership in a list that is written out. *)
Ltac in_list := repeat first [apply list_elem_of_here | apply list_elem_of_further].

Ltac each_member H :=
  repeat (apply elem_of_cons in H as [->|H]);
  [..|exfalso; apply elem_of_nil in H; exact H].

Lemma Item_always_has_a_box_witness :
  ∃ it, h_items (exec (Call_Box_remove 0) one_box_store).2 !! 0%nat = Some it
        ∧ NoDup (boxes it)
        ∧ (1 ≤ Set_size (boxes it))%nat.
Proof.
  apply Item_always_has_a_box. apply reachable_step.
  apply (reachable_new_Item empty_heap (VStr "shelf") (VStr "bolt") (num 3)
           [small_box] 0).
  reflexivity.
Defined.

Lemma Item_removeBox_spec_witness :
  Box_remove 2 example_store = (Throw MustHaveOneBox, example_store).
Proof.
  destruct (Item_removeBox_spec example_store 1
              (mkItem (VStr "bin") (VStr "nut") (num 3) [2%nat]) 2
              (mkBox (num 5) (VStr "small") (VItem 1)))
    as (Heq & Hone & _); [reflexivity | simpl; in_list | reflexivity..|].
  rewrite Heq. apply Hone. reflexivity.
Defined.

Lemma Container_getContainerData_spec_witness :
  Container_getContainerData 0 (VStr "Obj") example_store
    = (Ok (VArr [VItem 0; VItem 1]), example_store).
Proof.
  apply (Container_getContainerData_spec example_store 0
           (mkContainer [0; 1]%nat) "Obj"); [reflexivity | | reflexivity].
  intros l Hl. simpl in Hl. each_member Hl.
  - exists (mkItem (VStr "shelf") (VStr "bolt") (num 3) [0; 1]%nat).
    split; [reflexivity|]. intros b Hb. simpl in Hb.
    each_member Hb; vm_compute; eauto.
  - exists (mkItem (VStr "bin") (VStr "nut") (num 3) [2%nat]).
    split; [reflexivity|]. intros b Hb. simpl in Hb.
    each_member Hb; vm_compute; eauto.
Defined.

(** C3, as the claim has it, fails for ["obj"]: the view of the
    container is the two Item instances, not the two objects that
    [getItemData("obj")] returns for them. *)
Lemma Container_getContainerData_obj_counterexample :
  let r0 := VObj [("collection", VStr "shelf"); ("item_name", VStr "bolt");
                  ("item_id", num 3); ("boxes", VArr [VBox 0; VBox 1])] in
  let r1 := VObj [("collection", VStr "bin"); ("item_name", VStr "nut");
                  ("item_id", num 3); ("boxes", VArr [VBox 2])] in
  Item_getItemData 0 (VStr "obj") example_store = (Ok r0, example_store)
  ∧ Item_getItemData 1 (VStr "obj") example_store = (Ok r1, example_store)
  ∧ Container_getContainerData 0 (VStr "obj") example_store
      ≠ (Ok (VArr [r0; r1]), example_store).
Proof.
  split_and!; [vm_compute; reflexivity | vm_compute; reflexivity |].
  vm_compute. discriminate.
Qed.

Lemma Container_round_trip_boxes_array_witness :
  ∃ h', new_Container [two_boxes_descriptor] empty_heap
        = (Throw (InvalidArgument "box.qty" small_box), h')
        ∧ is_ValidationError (InvalidArgument "box.qty" small_box) = true.
Proof.
  apply (Container_round_trip_boxes_array "shelf" "bolt" 3
           [num 5; VStr "small"] [large_box] empty_heap);
    [vm_compute; discriminate | vm_compute; discriminate | lia].
Defined.

Lemma unrecognized_format_returns_null_witness :
  (Item_getItemData 0 (VStr "XML") example_store = (Ok VNull, example_store)
   ∧ Container_getContainerData 0 (VStr "XML") example_store
       = (Ok VNull, example_store))
  ∧ (Item_getItemData 0 (VStr "  ") example_store
       = (Throw (InvalidArgument "item.getItemData" (VStr "  ")),
          example_store)
     ∧ Container_getContainerData 0 (VStr "  ") example_store
       = (Throw (InvalidArgument "Container.getContainerData" (VStr "  ")),
          example_store)
     ∧ is_ValidationError (InvalidArgument "item.getItemData" (VStr "  "))
       = true
     ∧ is_ValidationError
         (InvalidArgument "Container.getContainerData" (VStr "  ")) = true).
Proof.
  split.
  - apply (proj1 (unrecognized_format_returns_null example_store 0 "XML"));
      vm_compute; discriminate.
  - apply (proj2 (unrecognized_format_returns_null example_store 0 "  ")).
    vm_compute. reflexivity.
Defined.

(** C5, as the claim has it, fails on a blank format: [" "] is a string
    that is not empty and not one of the three names, and both calls
    throw. *)
Lemma blank_format_counterexample :
  " " ≠ ""
  ∧ toLowerCase " " ≠ "obj" ∧ toLowerCase " " ≠ "json"
  ∧ toLowerCase " " ≠ "table"
  ∧ Item_getItemData 0 (VStr " ") example_store
      = (Throw (InvalidArgument "item.getItemData" (VStr " ")), example_store)
  ∧ Container_getContainerData 0 (VStr " ") example_store
      = (Throw (InvalidArgument "Container.getContainerData" (VStr " ")),
         example_store).
Proof. split_and!; first [reflexivity | vm_compute; discriminate]. Qed.



Lemma Item_getItemData_table_two_boxes_witness :
  Item_getItemData 0 (VStr "Table") example_store
    = (Ok (VArr [VObj [("collection", VStr "shelf");
                       ("item_name", VStr "bolt");
                       ("item_id", num 3);
                       ("box_qty", num 5);
                       ("box_description", VStr "small")];
                 VObj [("collection", VStr "shelf");
                       ("item_name", VStr "bolt");
                       ("item_id", num 3);
                       ("box_qty", num 10);
                       ("box_description", VStr "large")]]), example_store).
Proof.
  apply (Item_getItemData_table_two_boxes example_store 0
           (mkItem (VStr "shelf") (VStr "bolt") (num 3) [0; 1]%nat) 0 1
           (mkBox (num 5) (VStr "small") (VItem 0))
           (mkBox (num 10) (VStr "large") (VItem 0)) "Table");
    reflexivity.
Defined.



Lemma Item_addBoxes_not_atomic_witness :
  ∃ err garbage,
    Item_addBoxes 1 [large_box; VArr [num 0; VStr "none"]; small_box]
      example_store
    = (Throw err,
       mkHeap [mkItem (VStr "shelf") (VStr "bolt") (num 3) [0; 1]%nat;
               mkItem (VStr "bin") (VStr "nut") (num 3) [2; 3]%nat]
              (h_boxes example_store
               ++ [mkBox (num 10) (VStr "large") (VItem 1)] ++ garbage)
              (h_containers example_store)).
Proof.
  apply (Item_addBoxes_not_atomic example_store 1
           (mkItem (VStr "bin") (VStr "nut") (num 3) [2%nat])
           [large_box] (VArr [num 0; VStr "none"]) [small_box]).
  - reflexivity.
  - intros b Hb. simpl in Hb. each_member Hb. vm_compute. lia.
  - apply Forall_singleton. exists (num 10), (VStr "large").
    split_and!; reflexivity.
  - intros (q & d & [= <-] & [= <-] & Hq & _). discriminate Hq.
Defined.

(** ** The further properties on the example stores *)

Lemma example_store_is_store : store example_store.
Proof.
  assert ((exec (Call_new_Container [VItem 0; VItem 1]%nat)
             (exec (Call_new_Item (VStr " bin ") (VStr "nut") (num 3)
                      [small_box])
                (exec (Call_new_Item (VStr "shelf") (VStr "bolt") (num 3)
                         [small_box; large_box]) empty_heap).2).2).2
          = example_store) as <- by (vm_compute; reflexivity).
  apply store_call; [apply store_call; [apply store_call|]|];
    [apply store_empty | exact I | exact I |].
  intros l Hl.
  repeat (apply elem_of_cons in Hl as [Hl|Hl];
          [injection Hl as ->; vm_compute; eauto|]).
  exfalso. apply elem_of_nil in Hl. exact Hl.
Qed.

Lemma untrimmed_store_is_store : store untrimmed_store.
Proof.
  apply (store_call example_store (Call_Box_set_description 2 (VStr " tiny ")));
    [apply example_store_is_store | exact I].
Qed.

Lemma store_wf_witness :
  ∃ bx, h_boxes example_store !! 2%nat = Some bx ∧ parentItem bx = VItem 1.
Proof.
  destruct (store_wf example_store example_store_is_store) as [HI _].
  destruct (HI 1%nat (mkItem (VStr "bin") (VStr "nut") (num 3) [2%nat])
              eq_refl) as [_ Hok].
  destruct (Hok 2%nat) as (bx & Hbx & Hp & _); [apply list_elem_of_here|].
  exists bx. split; assumption.
Defined.

Lemma Box_has_one_owner_witness :
  Box_getParentItem 1 example_store = (Ok (VItem 0), example_store).
Proof.
  destruct (Box_has_one_owner example_store 0
              (mkItem (VStr "shelf") (VStr "bolt") (num 3) [0; 1]%nat) 1)
    as [Hp _]; [apply example_store_is_store | reflexivity | in_list |].
  exact Hp.
Defined.

Lemma Container_addItems_instance_witness :
  Container_addItems 0 [VItem 1; VItem 1] example_store
    = (Ok tt, example_store).
Proof.
  destruct (Container_addItems_instance example_store 0
              (mkContainer [0; 1]%nat) 1 eq_refl)
    as (_ & Hsame & _ & _ & Htwice).
  rewrite <- Hsame at 2; [exact Htwice | simpl; in_list].
Defined.


Lemma Item_getBoxesByName_untrimmed_witness :
  VBox 2 ∉ ([] : list value).
Proof.
  apply (Item_getBoxesByName_untrimmed untrimmed_store 1
           (mkItem (VStr "bin") (VStr "nut") (num 3) [2%nat]) 2
           (mkBox (num 5) (VStr " tiny ") (VItem 1)) " tiny "
           (VStr " tiny ") [] untrimmed_store).
  - reflexivity.
  - intros b Hb. simpl in Hb. each_member Hb. vm_compute. eauto.
  - reflexivity.
  - reflexivity.
  - vm_compute. discriminate.
  - vm_compute. reflexivity.
Defined.

Lemma Item_round_trip_witness :
  ∃ this h',
    new_Item (VStr " shelf ") (VStr "bolt") (num 3) [small_box; large_box]
      empty_heap = (Ok this, h')
    ∧ Item_getItemData this (VStr "json") h'
      = (Ok (VObj [("collection", VStr (trim " shelf "));
                   ("item_name", VStr (trim "bolt"));
                   ("item_id", num 3);
                   ("boxes",
                    VArr (json_of_descriptor <$> [small_box; large_box]))]),
         h').
Proof.
  apply Item_round_trip;
    [vm_compute; discriminate | vm_compute; discriminate | lia
    | discriminate |].
  repeat apply Forall_cons_2; [| |apply Forall_nil_2].
  - exists (num 5), (VStr "small"). split_and!; reflexivity.
  - exists (num 10), (VStr "large"). split_and!; reflexivity.
Defined.

Lemma Item_getItemData_views_witness :
  Item_getItemData 1 (VStr "JSON") example_store
    = (Ok (VObj [("collection", VStr "bin"); ("item_name", VStr "nut");
                 ("item_id", num 3);
                 ("boxes", VArr [VObj [("qty", num 5);
                                       ("description", VStr "small")]])]),
       example_store).
Proof.
  destruct (Item_getItemData_views example_store 1
              (mkItem (VStr "bin") (VStr "nut") (num 3) [2%nat]) "JSON")
    as (_ & _ & Hjson & _); [reflexivity | |].
  - intros b Hb. simpl in Hb. each_member Hb. vm_compute. eauto.
  - apply Hjson. reflexivity.
Defined.

Lemma reads_leave_the_store_witness :
  (exec (Call_Item_getBoxesByName 0 VNull) example_store).2 = example_store.
Proof. apply reads_leave_the_store. reflexivity. Defined.


Lemma Box_remove_twice_witness :
  Box_remove 0 (Box_remove 0 example_store).2
    = (Throw (InvalidArgument "item.removeBox" (VBox 0)),
       (Box_remove 0 example_store).2).
Proof.
  destruct (Box_remove_twice example_store (Box_remove 0 example_store).2 0)
    as [Hrun _]; [vm_compute; reflexivity | exact Hrun].
Defined.

Lemma new_Box_is_in_no_set_witness :
  Box_remove 3 (new_Box (num 1) (VStr "loose") (VItem 0) example_store).2
    = (Throw (InvalidArgument "item.removeBox" (VBox 3)),
       (new_Box (num 1) (VStr "loose") (VItem 0) example_store).2).
Proof.
  destruct (new_Box_is_in_no_set example_store
              (new_Box (num 1) (VStr "loose") (VItem 0) example_store).2
              (num 1) (VStr "loose") 0 3
              (mkItem (VStr "shelf") (VStr "bolt") (num 3) [0; 1]%nat))
    as (_ & _ & Hrun);
    [apply store_is_wf, example_store_is_store | reflexivity
    | vm_compute; reflexivity | exact Hrun].
Defined.

Lemma Container_views_in_store_witness :
  Container_getContainerData 0 (VStr "table") example_store
    = (Ok (VArr (concat (item_rows example_store <$> [0; 1]%nat))),
       example_store).
Proof.
  destruct (Container_views_in_store example_store 0
              (mkContainer [0; 1]%nat) "table")
    as [_ Htable]; [apply example_store_is_store | reflexivity |].
  apply Htable. reflexivity.
Defined.

Lemma Container_deleteItem_twice_witness :
  Container_deleteItem 0 (VItem 1)
      (Container_deleteItem 0 (VItem 1) example_store).2
    = (Throw (InvalidArgument "Container.deleteItem" (VItem 1)),
       (Container_deleteItem 0 (VItem 1) example_store).2).
Proof.
  destruct (Container_deleteItem_twice example_store
              (Container_deleteItem 0 (VItem 1) example_store).2 0 (VItem 1))
    as [Hrun _]; [vm_compute; reflexivity | exact Hrun].
Defined.

Lemma isVerified_header_witness :
  Auth.verified
    (Auth.isVerified toy_decode (Some "secret") Auth.Rejected
       (λ _, Auth.Rejected)
       (Auth.new (Auth.mkRequest (Some "Basic c2VjcmV0") None))) = true.
Proof.
  destruct (isVerified_header toy_decode (Some "secret") Auth.Rejected
              (λ _, Auth.Rejected) "Basic c2VjcmV0"
              (Auth.new (Auth.mkRequest (Some "Basic c2VjcmV0") None)))
    as [[_ Hyes] _]; [reflexivity | discriminate |].
  apply Hyes. exists "c2VjcmV0". split; reflexivity.
Defined.

Lemma isVerified_cookie_witness :
  Auth.verified
    (Auth.isVerified toy_decode (Some "secret") Auth.Rejected
       (λ c, Auth.Resolved false (Some [Auth.mkRecord (Some c) true "7"]))
       (Auth.new (Auth.mkRequest (Some "") (Some "abc")))) = true.
Proof.
  destruct (isVerified_cookie toy_decode (Some "secret") Auth.Rejected
              (λ c, Auth.Resolved false
                      (Some [Auth.mkRecord (Some c) true "7"]))
              (Auth.new (Auth.mkRequest (Some "") (Some "abc"))))
    as [[_ Hyes] _]; [reflexivity|].
  apply Hyes. exists "abc", (Auth.mkRecord (Some "abc") true "7"), [].
  split_and!; [reflexivity | discriminate | reflexivity | reflexivity].
Defined.
